(** * The DASH download pipeline of [get.ts]: model and properties

    The development embeds the media pipeline of [get.ts]
    ([parseByteRange], [downloadRange], [downloadDashRepresentation],
    [mergeDashVideoAudio], [downloadBestQualityDash],
    [findVideoAdaptationSet], [findAudioAdaptationSet],
    [downloadHighestResImage], [extractMediaRecursive]) together with the
    few JavaScript primitives they rely on.  The older [get_insta.js]
    holds the same functions; where the two differ ([get.ts] skips a
    prefetch range that does not parse and has a direct-URL branch for
    videos) the model follows [get.ts].

    Conventions of the model:
    - a JavaScript number is either [NaN] or an exact integer [Num z]
      (the code only ever builds numbers from decimal digit strings, by
      [+ 1], [- 1] and by subtraction; precision loss above 2^53 and the
      sign of zero are not modelled);
    - a JavaScript string is a Stdlib [string], one character per code
      unit, over the one-byte range;
    - an optional attribute ([bandwidth?: string]) is an [option string];
    - asynchronous functions are run to completion: a promise that
      rejects is a thrown error;
    - the network, the multiplexer process, the XML library and
      [path.join] are parameters of the model, collected in [Env]. *)

From Stdlib Require Import ZArith List String Ascii Bool Lia Permutation.
From Stdlib Require Import Decimal DecimalString DecimalNat.
From stdpp Require Import gmap strings list.

Local Open Scope string_scope.
Local Open Scope Z_scope.
Local Open Scope list_scope.

(** ** JavaScript primitives *)

Module Js.

Inductive number : Type :=
| NaN : number
| Num (z : Z) : number.

(** [a + b] and [a - b] on numbers. *)
Definition add (a b : number) : number :=
  match a, b with
  | Num x, Num y => Num (x + y)
  | _, _ => NaN
  end.

Definition sub (a b : number) : number :=
  match a, b with
  | Num x, Num y => Num (x - y)
  | _, _ => NaN
  end.

(** [a > b] and [a < b]: every comparison with [NaN] is false. *)
Definition gt (a b : number) : bool :=
  match a, b with
  | Num x, Num y => y <? x
  | _, _ => false
  end.

Definition lt (a b : number) : bool := gt b a.

(** Truthiness of a possibly absent string: [undefined] and [''] are
    falsy. *)
Definition truthy (o : option string) : bool :=
  match o with
  | Some (String _ _) => true
  | _ => false
  end.

(** [o || dflt] for a possibly absent string. *)
Definition or_default (o : option string) (dflt : string) : string :=
  match o with
  | Some (String c s) => String c s
  | _ => dflt
  end.

(** The string held by an attribute that was found truthy. *)
Definition the_string (o : option string) : string := or_default o EmptyString.

Definition code (c : ascii) : Z := Z.of_N (N_of_ascii c).

(** The class [\d] of a regular expression without the unicode flag, and
    the digits of radix 10: ['0'] to ['9']. *)
Definition is_digit (c : ascii) : bool := (48 <=? code c) && (code c <=? 57).

Definition digit_value (c : ascii) : Z := code c - 48.

(** White space and line terminators stripped by [parseInt]: TAB, LF, VT,
    FF, CR, SP and NBSP. *)
Definition is_space (c : ascii) : bool :=
  let n := code c in
  ((9 <=? n) && (n <=? 13)) || (n =? 32) || (n =? 160).

Fixpoint trim_start (s : string) : string :=
  match s with
  | String c s' => if is_space c then trim_start s' else s
  | EmptyString => EmptyString
  end.

(** The longest prefix of digits of [s], and what follows it. *)
Fixpoint span_digits (s : string) : string * string :=
  match s with
  | String c s' =>
      if is_digit c
      then let (d, r) := span_digits s' in (String c d, r)
      else (EmptyString, s)
  | EmptyString => (EmptyString, EmptyString)
  end.

(** The integer denoted by a string of decimal digits, most significant
    digit first. *)
Fixpoint digits_value (acc : Z) (s : string) : Z :=
  match s with
  | String c s' => digits_value (10 * acc + digit_value c) s'
  | EmptyString => acc
  end.

(** [parseInt(s, 10)]: skip leading white space, read an optional sign,
    then the longest prefix of digits; [NaN] when that prefix is empty. *)
Definition parseInt (s : string) : number :=
  let s1 := trim_start s in
  let '(sign, s2) :=
    match s1 with
    | String "-"%char r => (-1, r)
    | String "+"%char r => (1, r)
    | _ => (1, s1)
    end in
  match fst (span_digits s2) with
  | EmptyString => NaN
  | String c d => Num (sign * digits_value 0 (String c d))
  end.

(** [String.prototype.toLowerCase] on the one-byte range: the letters
    ['A'..'Z'] and the capital letters U+00C0..U+00DE other than U+00D7. *)
Definition lower_char (c : ascii) : ascii :=
  let n := code c in
  if ((65 <=? n) && (n <=? 90))
     || ((192 <=? n) && (n <=? 222) && negb (n =? 215))
  then ascii_of_N (Z.to_N (n + 32))
  else c.

Fixpoint toLowerCase (s : string) : string :=
  match s with
  | String c s' => String (lower_char c) (toLowerCase s')
  | EmptyString => EmptyString
  end.

(** [s.includes(t)]: [t] occurs in [s] as a substring. *)
Fixpoint includes (s t : string) : bool :=
  String.prefix t s ||
  match s with
  | String _ s' => includes s' t
  | EmptyString => false
  end.

(** [arr.includes(x)] on an array of strings. *)
Definition array_includes (arr : list string) (x : string) : bool :=
  existsb (String.eqb x) arr.

(** The decimal text of a non-negative integer, as string concatenation
    [s + n] produces it. *)
Definition string_of_nat (n : nat) : string :=
  NilEmpty.string_of_uint (Nat.to_uint n).

(** [Array.prototype.sort(comparefn)].  The sort is stable, and a
    comparison whose result is [NaN] counts as [+0].  For a consistent
    comparator every stable sort returns the same array, computed here by
    insertion: an element moves in front of [y] unless [y] must come
    strictly first. *)
Section Sort.

Context {A : Type} (comparefn : A -> A -> number).

Definition comes_before (y x : A) : bool := lt (comparefn y x) (Num 0).

Fixpoint insert_sorted (x : A) (l : list A) : list A :=
  match l with
  | [] => [x]
  | y :: l' => if comes_before y x then y :: insert_sorted x l' else x :: l
  end.

Fixpoint sort (l : list A) : list A :=
  match l with
  | [] => []
  | x :: l' => insert_sorted x (sort l')
  end.

End Sort.

(** [arr.reduce(f)] without an initial value; [None] stands for the
    [TypeError] raised on an empty array. *)
Definition reduce {A : Type} (f : A -> A -> A) (arr : list A) : option A :=
  match arr with
  | [] => None
  | x :: l => Some (fold_left f l x)
  end.

End Js.

Import Js.

(** ** Byte ranges *)

(** [str.match(/^(\d+)-(\d+)$/)]: the two captured groups.  The first
    group is the longest run of digits at the start of [str] (a shorter
    run would have to be followed by a digit, not by ['-']). *)
Definition match_byte_range (str : string) : option (string * string) :=
  match span_digits str with
  | (String c1 d1, String "-"%char rest) =>
      match span_digits rest with
      | (String c2 d2, EmptyString) => Some (String c1 d1, String c2 d2)
      | _ => None
      end
  | _ => None
  end.

Definition parseByteRange (str : string) : option (number * number) :=
  match match_byte_range str with
  | None => None
  | Some (m1, m2) => Some (parseInt m1, parseInt m2)
  end.

(** ** The world: files, network log, console *)

Abbreviation Buffer := (list Byte.byte).
Abbreviation Files := (gmap string (list Byte.byte)).

(** A request issued through [nodeFetch]: the URL and, when a [Range]
    header [bytes=<start>-<end>] is set, its two bounds. *)
Record Request : Type := mkRequest {
  req_url : string;
  req_range : option (number * number)
}.

Record Response : Type := mkResponse {
  ok : bool;
  status : Z;
  body : Buffer
}.

(** [nodeFetch] either rejects (transport failure) or resolves to a
    response, whatever its status. *)
Inductive FetchOutcome : Type :=
| Rejects : FetchOutcome
| Resolves (r : Response) : FetchOutcome.

Inductive JsError : Type :=
| HttpError (status : Z) (url : string)
| FetchError (url : string)
| TypeError
| ExecError (exit_code : Z)
| ENOENT (path : string)
| XmlError.

Inductive Result (A : Type) : Type :=
| Ok (a : A) : Result A
| Throw (e : JsError) : Result A.
Arguments Ok {A} a.
Arguments Throw {A} e.

(** The state threaded through the pipeline: the files on disk, the
    requests sent so far, the command lines run so far (by the output
    path they were given) and the lines printed so far. *)
Record World : Type := mkWorld {
  fs : Files;
  requests : list Request;
  commands : list string;
  console : list string
}.

Definition set_fs (files : Files) (w : World) : World :=
  mkWorld files (requests w) (commands w) (console w).

Definition add_request (rq : Request) (w : World) : World :=
  mkWorld (fs w) (requests w ++ [rq]) (commands w) (console w).

Definition add_command (cmd : string) (w : World) : World :=
  mkWorld (fs w) (requests w) (commands w ++ [cmd]) (console w).

Definition add_console (msg : string) (w : World) : World :=
  mkWorld (fs w) (requests w) (commands w) (console w ++ [msg]).

Definition M (A : Type) : Type := World -> Result A * World.

Definition ret {A} (a : A) : M A := fun w => (Ok a, w).

Definition throw {A} (e : JsError) : M A := fun w => (Throw e, w).

Definition bind {A B} (m : M A) (k : A -> M B) : M B :=
  fun w =>
    match m w with
    | (Ok a, w') => k a w'
    | (Throw e, w') => (Throw e, w')
    end.

Notation "'let*' x ':=' m 'in' k" := (bind m (fun x => k))
  (at level 10, x name, m at level 100, k at level 200).

(** [try { body } catch (e) { handler }]. *)
Definition try_catch {A} (body : M A) (handler : JsError -> M A) : M A :=
  fun w =>
    match body w with
    | (Ok a, w') => (Ok a, w')
    | (Throw e, w') => handler e w'
    end.

(** [try { body } finally { cleanup }]: the clean-up runs on both exits;
    the outcome of [body] stands unless the clean-up itself throws. *)
Definition try_finally {A} (body : M A) (cleanup : M unit) : M A :=
  fun w =>
    match body w with
    | (r, w') =>
        match cleanup w' with
        | (Ok _, w'') => (r, w'')
        | (Throw e, w'') => (Throw e, w'')
        end
    end.

Definition console_log (msg : string) : M unit :=
  fun w => (Ok tt, add_console msg w).

(** [fs.writeFileSync], [fs.statSync] (the size of the file),
    [fs.unlinkSync] and [fs.mkdirSync(_, { recursive: true })] on a file
    system that is a finite map from paths to contents: reading or
    removing a missing file throws, directories are not represented. *)
Definition writeFileSync (path : string) (data : Buffer) : M unit :=
  fun w => (Ok tt, set_fs (<[path := data]> (fs w)) w).

Definition statSync (path : string) : M Z :=
  fun w =>
    match fs w !! path with
    | Some data => (Ok (Z.of_nat (length data)), w)
    | None => (Throw (ENOENT path), w)
    end.

Definition unlinkSync (path : string) : M unit :=
  fun w =>
    match fs w !! path with
    | Some _ => (Ok tt, set_fs (delete path (fs w)) w)
    | None => (Throw (ENOENT path), w)
    end.

Definition mkdirSync (path : string) : M unit := ret tt.

(** ** The manifest, as [xml2js] delivers it *)

Record DashRepresentationAttrs : Type := mkReprAttrs {
  id : string;
  bandwidth : option string;
  codecs : option string;
  mimeType : option string;
  FBContentLength : option string
}.

Record DashInitialization : Type := mkInit {
  range : string
}.

Record DashSegmentBase : Type := mkSegmentBase {
  FBFirstSegmentRange : option string;
  FBSecondSegmentRange : option string;
  FBPrefetchSegmentRange : option string;
  Initialization : list DashInitialization
}.

Record DashRepresentation : Type := mkRepr {
  repr_attrs : DashRepresentationAttrs;
  BaseURL : list string;
  SegmentBase : list DashSegmentBase
}.

(** The field [Representation: DashRepresentation | DashRepresentation[]],
    which the code also tests for absence. *)
Inductive RepresentationField : Type :=
| RepAbsent : RepresentationField
| RepSingle (r : DashRepresentation) : RepresentationField
| RepArray (l : list DashRepresentation) : RepresentationField.

Record DashAdaptationSet : Type := mkAdaptationSet {
  contentType : option string;
  Representation : RepresentationField
}.

(** [AdaptationSet] is [None] when it is not an array. *)
Record DashPeriod : Type := mkPeriod {
  AdaptationSet : option (list DashAdaptationSet)
}.

Record DashMPD : Type := mkMPD {
  Period : list DashPeriod
}.

(** ** The environment *)

Record Env : Type := mkEnv {
  (** [nodeFetch(url, { headers })] *)
  nodeFetch : Request -> FetchOutcome;
  (** the [ffmpeg] command line of [mergeDashVideoAudio] run on the
      current files with the given output path: its exit code and the
      files it leaves *)
  ffmpeg : string -> Files -> Z * Files;
  (** [xml2js.parseStringPromise]; [None] when the promise rejects *)
  parseStringPromise : string -> option DashMPD;
  path_join : string -> string -> string;
  isVerbose : bool
}.

Definition logDebug (env : Env) (msg : string) : M unit :=
  if isVerbose env then console_log msg else ret tt.

(** [await nodeFetch(...)]: the request is recorded, a rejection is
    thrown. *)
Definition fetch (env : Env) (rq : Request) : M Response :=
  fun w =>
    let w' := add_request rq w in
    match nodeFetch env rq with
    | Resolves r => (Ok r, w')
    | Rejects => (Throw (FetchError (req_url rq)), w')
    end.

(** [execSync(`ffmpeg ... "${outPath}" > /dev/null 2>&1`)]: throws when
    the command exits with a non-zero code. *)
Definition execSync_ffmpeg (env : Env) (outPath : string) : M unit :=
  fun w =>
    let '(exit_code, files) := ffmpeg env outPath (fs w) in
    let w' := set_fs files (add_command outPath w) in
    if exit_code =? 0 then (Ok tt, w') else (Throw (ExecError exit_code), w').

(** [arr[0]] *)
Definition first {A} (arr : list A) : option A := head arr.

(** Reading a property of [o]: a [TypeError] when [o] is [undefined]. *)
Definition deref {A} (o : option A) : M A :=
  match o with
  | Some a => ret a
  | None => throw TypeError
  end.

(** ** DASH downloads *)

Definition downloadRange (env : Env) (url : option string)
    (start end_ : option number) : M Buffer :=
  let range_header :=
    match start, end_ with
    | Some a, Some b => Some (a, b)
    | _, _ => None
    end in
  (* [url.substring(0, 100)] *)
  let* url := deref url in
  let* _ := logDebug env "[downloadRange] Requesting" in
  let* res := fetch env (mkRequest url range_header) in
  let* _ := logDebug env "[downloadRange] Response code:" in
  if negb (ok res) then throw (HttpError (status res) url)
  else
    let buf := body res in
    let* _ := logDebug env "[downloadRange] Received chunk" in
    ret buf.

(** The range strings gathered in the branch without a total length:
    [segRanges] after the three conditional [push]es. *)
Definition collectSegRanges (segBase : DashSegmentBase) : list string :=
  let srA := FBFirstSegmentRange segBase in
  let srB := FBSecondSegmentRange segBase in
  let srP := FBPrefetchSegmentRange segBase in
  let segRanges := [] in
  let segRanges := if truthy srA then segRanges ++ [the_string srA] else segRanges in
  let segRanges := if truthy srB then segRanges ++ [the_string srB] else segRanges in
  if truthy srP && negb (array_includes segRanges (the_string srP))
  then segRanges ++ [the_string srP]
  else segRanges.

(** The loop [for (const sr of segRanges)]. *)
Fixpoint downloadSegRanges (env : Env) (baseURL : option string)
    (segRanges : list string) (chunks : list Buffer) : M (list Buffer) :=
  match segRanges with
  | [] => ret chunks
  | sr :: rest =>
      match parseByteRange sr with
      | None => downloadSegRanges env baseURL rest chunks
      | Some (s, e) =>
          let* _ := logDebug env "[downloadDashRepresentation] Download =>" in
          let* segBuf := downloadRange env baseURL (Some s) (Some e) in
          downloadSegRanges env baseURL rest (chunks ++ [segBuf])
      end
  end.

Definition downloadDashRepresentation (env : Env) (repr : DashRepresentation)
    : M Buffer :=
  let baseURL := first (BaseURL repr) in
  let segBase := first (SegmentBase repr) in
  let* _ := logDebug env "[downloadDashRepresentation] Representation ID=" in
  let totalLen := parseInt (or_default (FBContentLength (repr_attrs repr)) "0") in
  let* segBase := deref segBase in
  let* init := deref (first (Initialization segBase)) in
  let initRangeStr := range init in
  let initRange :=
    match parseByteRange initRangeStr with
    | Some r => r
    | None => (Num 0, Num 0)
    end in
  let* _ := logDebug env "[downloadDashRepresentation] initRange=" in
  let* initBuf := downloadRange env baseURL (Some (fst initRange)) (Some (snd initRange)) in
  let chunks := [initBuf] in
  let* chunks :=
    if gt totalLen (Num 0) then
      let startByte := add (snd initRange) (Num 1) in
      let endByte := sub totalLen (Num 1) in
      let* _ := logDebug env "[downloadDashRepresentation] Download entire =>" in
      let* mainBuf := downloadRange env baseURL (Some startByte) (Some endByte) in
      ret (chunks ++ [mainBuf])
    else
      downloadSegRanges env baseURL (collectSegRanges segBase) chunks in
  let resultBuf := concat chunks in
  let* _ := logDebug env "[downloadDashRepresentation] Combined =>" in
  ret resultBuf.

Definition temp_video : string := "temp_video.mp4".
Definition temp_audio : string := "temp_audio.mp4".

Definition mergeDashVideoAudio (env : Env) (videoBuf audioBuf : Buffer)
    (outPath : string) : M unit :=
  let* _ := writeFileSync temp_video videoBuf in
  let* _ := writeFileSync temp_audio audioBuf in
  try_finally
    (try_catch
       (let* _ := execSync_ffmpeg env outPath in
        let* mergedStat := statSync outPath in
        console_log "Merged final mp4 =>")
       (fun e => logDebug env "[mergeDashVideoAudio] ffmpeg merge error:"))
    (let* _ := try_catch (unlinkSync temp_video) (fun _ => ret tt) in
     try_catch (unlinkSync temp_audio) (fun _ => ret tt)).

(** ** Identifying the video and audio adaptation sets *)

Definition hasContentType (kind : string) (a : DashAdaptationSet) : bool :=
  String.eqb (toLowerCase (or_default (contentType a) EmptyString)) kind.

(** The second pass of [findVideoAdaptationSet]/[findAudioAdaptationSet]:
    the first representation of each set is inspected. *)
Fixpoint sniffAdaptationSet (mime codec : string)
    (adaptationSets : list DashAdaptationSet)
    : Result (option DashAdaptationSet) :=
  match adaptationSets with
  | [] => Ok None
  | a :: rest =>
      match Representation a with
      | RepAbsent => sniffAdaptationSet mime codec rest
      | rf =>
          let reps := match rf with RepArray l => l | RepSingle r => [r] | RepAbsent => [] end in
          match first reps with
          | None => Throw TypeError
          | Some rep0 =>
              let r0 := repr_attrs rep0 in
              if truthy (mimeType r0) && includes (the_string (mimeType r0)) mime
              then Ok (Some a)
              else if truthy (codecs r0) && includes (the_string (codecs r0)) codec
              then Ok (Some a)
              else sniffAdaptationSet mime codec rest
          end
      end
  end.

Definition findAdaptationSet (kind mime codec : string)
    (adaptationSets : list DashAdaptationSet)
    : Result (option DashAdaptationSet) :=
  match find (hasContentType kind) adaptationSets with
  | Some direct => Ok (Some direct)
  | None => sniffAdaptationSet mime codec adaptationSets
  end.

Definition findVideoAdaptationSet := findAdaptationSet "video" "video" "avc1".

Definition findAudioAdaptationSet := findAdaptationSet "audio" "audio" "mp4a".

(** ** The best-quality DASH download *)

(** The comparator of [videoReprs.sort(...)] and [audioReprs.sort(...)]:
    [parseInt(b.$.bandwidth || '0', 10) - parseInt(a.$.bandwidth || '0', 10)]. *)
Definition bandwidthOf (r : DashRepresentation) : number :=
  parseInt (or_default (bandwidth (repr_attrs r)) "0").

Definition bandwidthCompare (a b : DashRepresentation) : number :=
  sub (bandwidthOf b) (bandwidthOf a).

(** [Array.isArray(x) ? x : [x]].  An absent field gives the array
    [[undefined]], whose only element is unusable; it is modelled by the
    empty list, with the same outcome (reading element 0 yields
    [undefined]). *)
Definition asArray (rf : RepresentationField) : list DashRepresentation :=
  match rf with
  | RepArray l => l
  | RepSingle r => [r]
  | RepAbsent => []
  end.

(** The ranking step: sort by bandwidth, descending, and take element 0. *)
Definition pickBestRepresentation (reprs : list DashRepresentation)
    : option DashRepresentation :=
  first (sort bandwidthCompare reprs).

Definition lift {A} (r : Result A) : M A := fun w => (r, w).

Definition downloadBestQualityDash (env : Env)
    (mpdXml folderName postName : string) : M unit :=
  let* _ := logDebug env "[downloadBestQualityDash] Parsing MPD XML" in
  let* parsed :=
    match parseStringPromise env mpdXml with
    | Some p => ret p
    | None => throw XmlError
    end in
  let* period := deref (first (Period parsed)) in
  match AdaptationSet period with
  | None => logDebug env "[downloadBestQualityDash] No adaptation sets array?"
  | Some adaptationSets =>
      let* videoSet := lift (findVideoAdaptationSet adaptationSets) in
      let* audioSet := lift (findAudioAdaptationSet adaptationSets) in
      match videoSet, audioSet with
      | None, _ =>
          logDebug env "[downloadBestQualityDash] Could not find a video adaptation set."
      | Some _, None =>
          logDebug env "[downloadBestQualityDash] Could not find an audio adaptation set."
      | Some videoSet, Some audioSet =>
          let bestVideo := pickBestRepresentation (asArray (Representation videoSet)) in
          let bestAudio := pickBestRepresentation (asArray (Representation audioSet)) in
          let* bestVideo := deref bestVideo in
          let* _ := console_log "Selected video =>" in
          let* bestAudio := deref bestAudio in
          let* _ := console_log "Selected audio =>" in
          let* videoBuf := downloadDashRepresentation env bestVideo in
          let* audioBuf := downloadDashRepresentation env bestAudio in
          let finalPath := path_join env folderName (postName ++ ".mp4")%string in
          let* _ := mergeDashVideoAudio env videoBuf audioBuf finalPath in
          console_log "Saved file =>"
      end
  end.

(** ** Highest-resolution image *)

Record InstagramDisplayResource : Type := mkDisplayResource {
  src : string;
  config_width : Z;
  config_height : Z
}.

(** The callback of [displayResources.reduce]. *)
Definition widerOf (acc cur : InstagramDisplayResource)
    : InstagramDisplayResource :=
  if config_width cur >? config_width acc then cur else acc.

Definition bestDisplayResource (displayResources : list InstagramDisplayResource)
    : option InstagramDisplayResource :=
  reduce widerOf displayResources.

Definition downloadHighestResImage (env : Env)
    (displayResources : list InstagramDisplayResource)
    (folderName fileName : string) : M unit :=
  let* best := deref (bestDisplayResource displayResources) in
  let url := src best in
  let* _ := logDebug env "[downloadHighestResImage] =>" in
  let* resp := fetch env (mkRequest url None) in
  if negb (ok resp) then
    logDebug env "[downloadHighestResImage] Download failed =>"
  else
    let buf := body resp in
    let* _ := mkdirSync folderName in
    let outPath := path_join env folderName fileName in
    let* _ := writeFileSync outPath buf in
    console_log "Saved file =>".

(** ** Recursive media extraction *)

Record InstagramDashInfo : Type := mkDashInfo {
  video_dash_manifest : string
}.

#[local] Unset Elimination Schemes.

(** [is_video?: boolean] is [false] when absent; [display_resources] is
    [None] when it is not an array; [edge_sidecar_to_children] holds the
    nodes of its [edges]. *)
Inductive InstagramMediaItem : Type := mkItem {
  display_resources : option (list InstagramDisplayResource);
  video_url : option string;
  dash_info : option InstagramDashInfo;
  is_video : bool;
  edge_sidecar_to_children : option (list InstagramMediaItem)
}.

#[local] Set Elimination Schemes.

(** The name of the child at 0-based index [i]:
    [postName + '_' + (i + 1)]. *)
Definition childName (postName : string) (i : nat) : string :=
  (postName ++ "_" ++ string_of_nat (i + 1))%string.

(** The statement [if (item.is_video) { ... }] of [extractMediaRecursive]:
    the count after it. *)
Definition extractVideo (env : Env) (item : InstagramMediaItem)
    (folderName postName : string) (downloadCount : Z) : M Z :=
  if is_video item then
    match dash_info item with
    | Some (mkDashInfo (String c m)) =>
        let* _ := console_log "[extractMediaRecursive] is_video => using MPD:" in
        let* _ := downloadBestQualityDash env (String c m) folderName postName in
        ret (downloadCount + 1)
    | _ =>
        if truthy (video_url item) then
          let* _ := console_log "[extractMediaRecursive] is_video => using direct video_url:" in
          try_catch
            (let fileName := (postName ++ ".mp4")%string in
             let filePath := path_join env folderName fileName in
             let* resp := fetch env (mkRequest (the_string (video_url item)) None) in
             let buffer := body resp in
             let* _ := mkdirSync folderName in
             let* _ := writeFileSync filePath buffer in
             let* _ := console_log "Saved file =>" in
             ret (downloadCount + 1))
            (fun error =>
             let* _ := console_log "Failed to download video from direct URL:" in
             ret downloadCount)
        else
          let* _ := console_log "[extractMediaRecursive] is_video => but no dash_info or video_url available." in
          ret downloadCount
    end
  else ret downloadCount.

(** The statement [if (Array.isArray(item.display_resources) && ...) { ... }]
    that follows it: the count after it. *)
Definition extractImage (env : Env) (item : InstagramMediaItem)
    (folderName postName : string) (downloadCount : Z) : M Z :=
  match display_resources item with
  | Some (r :: rs) =>
      let fileName := (postName ++ ".jpg")%string in
      let* _ := downloadHighestResImage env (r :: rs) folderName fileName in
      ret (downloadCount + 1)
  | _ => ret downloadCount
  end.

(** The part of [extractMediaRecursive] that handles an item without
    children: the two statements in sequence, then [return downloadCount]. *)
Definition extractLeaf (env : Env) (item : InstagramMediaItem)
    (folderName postName : string) (downloadCount : Z) : M Z :=
  let* downloadCount := extractVideo env item folderName postName downloadCount in
  let* downloadCount := extractImage env item folderName postName downloadCount in
  ret downloadCount.

(** The loop [for (let i = 0; i < edges.length; i++)] over the children,
    from index [i] on, given the function called on each child. *)
Fixpoint extractChildren (recurse : InstagramMediaItem -> string -> string -> M Z)
    (folderName postName : string) (edges : list InstagramMediaItem)
    (i : nat) (downloadCount : Z) : M Z :=
  match edges with
  | [] => ret downloadCount
  | child :: rest =>
      let* n := recurse child folderName (childName postName i) in
      extractChildren recurse folderName postName rest (S i) (downloadCount + n)
  end.

Fixpoint extractMediaRecursive (env : Env) (item : InstagramMediaItem)
    (folderName postName : string) {struct item} : M Z :=
  let downloadCount := 0 in
  match edge_sidecar_to_children item with
  | Some edges =>
      extractChildren (extractMediaRecursive env) folderName postName edges 0%nat downloadCount
  | None => extractLeaf env item folderName postName downloadCount
  end.

(** * Vocabulary of the properties

    Predicates, reference functions and sample inputs used to state and
    to instantiate the properties below. *)



Definition set_tagged (tag : option string) : DashAdaptationSet :=
  mkAdaptationSet tag RepAbsent.

(** The bandwidth as the specification reads it: a missing or unparseable
    attribute counts as 0. *)
Definition bandwidthOrZero (r : DashRepresentation) : Z :=
  match bandwidthOf r with
  | Num z => z
  | NaN => 0
  end.

Definition parseable (r : DashRepresentation) : Prop := bandwidthOf r <> NaN.

(** Bandwidths never increase along the list. *)
Fixpoint descending (l : list DashRepresentation) : Prop :=
  match l with
  | [] => True
  | x :: l' =>
      match l' with
      | [] => True
      | y :: _ => bandwidthOrZero y <= bandwidthOrZero x
      end /\ descending l'
  end.

Definition repr_with_bandwidth (name : string) (bw : option string)
    : DashRepresentation :=
  mkRepr (mkReprAttrs name bw None None None) [] [].

(** What a call leaves of the world, the console apart. *)
Definition unchanged_but_requests (log : list Request) (w w' : World) : Prop :=
  requests w' = requests w ++ log /\ fs w' = fs w /\ commands w' = commands w.

(** The outcome of one range request, as [downloadRange] reports it. *)
Definition fetchResult (env : Env) (url : string) (r : number * number)
    : Result Buffer :=
  match nodeFetch env (mkRequest url (Some r)) with
  | Rejects => Throw (FetchError url)
  | Resolves res =>
      if ok res then Ok (body res) else Throw (HttpError (status res) url)
  end.

(** Requests issued one after the other until one fails: the chunks
    received, or the error, and the requests sent. *)
Fixpoint fetchRanges (env : Env) (url : string) (ranges : list (number * number))
    : Result (list Buffer) * list Request :=
  match ranges with
  | [] => (Ok [], [])
  | r :: rest =>
      match fetchResult env url r with
      | Throw e => (Throw e, [mkRequest url (Some r)])
      | Ok buf =>
          let (res, log) := fetchRanges env url rest in
          (match res with Ok bufs => Ok (buf :: bufs) | Throw e => Throw e end,
           mkRequest url (Some r) :: log)
      end
  end.

Definition result_map {A B} (f : A -> B) (r : Result A) : Result B :=
  match r with
  | Ok a => Ok (f a)
  | Throw e => Throw e
  end.

(** The byte ranges that [downloadDashRepresentation] sets out to
    request, in order. *)
Definition initRangeOf (init : DashInitialization) : number * number :=
  match parseByteRange (range init) with
  | Some r => r
  | None => (Num 0, Num 0)
  end.

Definition totalLenOf (repr : DashRepresentation) : number :=
  parseInt (or_default (FBContentLength (repr_attrs repr)) "0").

Definition plannedRanges (repr : DashRepresentation) (segBase : DashSegmentBase)
    (init : DashInitialization) : list (number * number) :=
  initRangeOf init ::
  if gt (totalLenOf repr) (Num 0)
  then [(add (snd (initRangeOf init)) (Num 1), sub (totalLenOf repr) (Num 1))]
  else omap parseByteRange (collectSegRanges segBase).

Definition rangeRequest (url : string) (r : number * number) : Request :=
  mkRequest url (Some r).


Definition zeros (n : Z) : Buffer := List.repeat Byte.x00 (Z.to_nat n).

Definition range_server : Env :=
  mkEnv
    (fun rq =>
       match req_range rq with
       | Some (Num a, Num b) => Resolves (mkResponse true 206 (zeros (b - a + 1)))
       | _ => Resolves (mkResponse true 200 [])
       end)
    (fun _ files => (0, files))
    (fun _ => None)
    (fun dir file => (dir ++ "/" ++ file)%string)
    false.

Definition empty_world : World := mkWorld ∅ [] [] [].

Definition repr_with_ranges (url initRange : string) (total : option string)
    (first second prefetch : option string) : DashRepresentation :=
  mkRepr (mkReprAttrs "r" None None None total) [url]
    [mkSegmentBase first second prefetch [mkInit initRange]].


#[local] Instance number_eq_dec : EqDecision number.
Proof. solve_decision. Defined.

#[local] Instance Request_eq_dec : EqDecision Request.
Proof. solve_decision. Defined.

(** A server that answers every request with status 200 and an empty
    body. *)
Definition always_ok : Env :=
  mkEnv
    (fun _ => Resolves (mkResponse true 200 []))
    (fun _ files => (0, files))
    (fun _ => None)
    (fun dir file => (dir ++ "/" ++ file)%string)
    false.

(** The files as the multiplexer finds them, and as it leaves them. *)
Definition files_before_merge (videoBuf audioBuf : Buffer) (w : World) : Files :=
  <[temp_audio := audioBuf]> (<[temp_video := videoBuf]> (fs w)).

Definition files_after_ffmpeg (env : Env) (videoBuf audioBuf : Buffer)
    (outPath : string) (w : World) : Files :=
  snd (ffmpeg env outPath (files_before_merge videoBuf audioBuf w)).

Definition ffmpeg_exit_code (env : Env) (videoBuf audioBuf : Buffer)
    (outPath : string) (w : World) : Z :=
  fst (ffmpeg env outPath (files_before_merge videoBuf audioBuf w)).

(** What the [try] block of [mergeDashVideoAudio] prints. *)
Definition merge_messages (env : Env) (videoBuf audioBuf : Buffer)
    (outPath : string) (w : World) : list string :=
  if (ffmpeg_exit_code env videoBuf audioBuf outPath w =? 0)
     && bool_decide (is_Some (files_after_ffmpeg env videoBuf audioBuf outPath w !! outPath))
  then ["Merged final mp4 =>"]
  else if isVerbose env then ["[mergeDashVideoAudio] ffmpeg merge error:"] else [].

(** A multiplexer that fails with exit code 1 and writes nothing. *)
Definition failing_ffmpeg : Env :=
  mkEnv
    (fun _ => Resolves (mkResponse true 200 []))
    (fun _ files => (1, files))
    (fun _ => None)
    (fun dir file => (dir ++ "/" ++ file)%string)
    false.

(** What the image download leaves: the file is written only when the
    response is OK. *)
Definition files_after_image (env : Env) (best : InstagramDisplayResource)
    (path : string) (files : Files) : Files :=
  match nodeFetch env (mkRequest (src best) None) with
  | Resolves resp => if ok resp then <[path := body resp]> files else files
  | Rejects => files
  end.

Definition image_result (env : Env) (best : InstagramDisplayResource)
    : Result unit :=
  match nodeFetch env (mkRequest (src best) None) with
  | Resolves _ => Ok tt
  | Rejects => Throw (FetchError (src best))
  end.

Definition image_item (resources : list InstagramDisplayResource)
    : InstagramMediaItem :=
  mkItem (Some resources) None None false None.

Definition video_item (url : option string)
    (resources : list InstagramDisplayResource) : InstagramMediaItem :=
  mkItem (Some resources) url None true None.

Definition resource (url : string) (width : Z) : InstagramDisplayResource :=
  mkDisplayResource url width width.

Definition one_byte_server : Env :=
  mkEnv
    (fun _ => Resolves (mkResponse true 200 [Byte.x01]))
    (fun _ files => (0, files))
    (fun _ => None)
    (fun dir file => (dir ++ "/" ++ file)%string)
    false.

(** The children from index [i] on are processed one after the other,
    the child at index [j] under the name [postName + "_" + (j + 1)], and
    each of them returns a count. *)
Inductive runChildren (env : Env) (folderName postName : string)
    : nat -> list InstagramMediaItem -> World -> list Z -> World -> Prop :=
| runChildren_nil (i : nat) (w : World) :
    runChildren env folderName postName i [] w [] w
| runChildren_cons (i : nat) (child : InstagramMediaItem)
    (rest : list InstagramMediaItem) (w w1 w2 : World) (n : Z) (ns : list Z) :
    extractMediaRecursive env child folderName (childName postName i) w = (Ok n, w1) ->
    runChildren env folderName postName (S i) rest w1 ns w2 ->
    runChildren env folderName postName i (child :: rest) w (n :: ns) w2.

Definition sumCounts (ns : list Z) : Z := fold_right Z.add 0 ns.

(** An item without children that is not a video and has at least one
    display resource. *)
Definition imageLeaf (item : InstagramMediaItem) : Prop :=
  edge_sidecar_to_children item = None /\
  is_video item = false /\
  exists r rs, display_resources item = Some (r :: rs).

(** A server that answers 404 for one URL and 200 with one byte for every
    other. *)
Definition missing_on_server (missing : string) : Env :=
  mkEnv
    (fun rq =>
       if String.eqb (req_url rq) missing
       then Resolves (mkResponse false 404 [])
       else Resolves (mkResponse true 200 [Byte.x01]))
    (fun _ files => (0, files))
    (fun _ => None)
    (fun dir file => (dir ++ "/" ++ file)%string)
    false.

(** A server that rejects the request for one URL. *)
Definition unreachable_on_server (unreachable : string) : Env :=
  mkEnv
    (fun rq =>
       if String.eqb (req_url rq) unreachable
       then Rejects
       else Resolves (mkResponse true 200 [Byte.x01]))
    (fun _ files => (0, files))
    (fun _ => None)
    (fun dir file => (dir ++ "/" ++ file)%string)
    false.

Definition carousel_item (children : list InstagramMediaItem) : InstagramMediaItem :=
  mkItem None None None false (Some children).

Definition two_images : InstagramMediaItem :=
  carousel_item [image_item [resource "https://cdn/1.jpg" 1080];
                 image_item [resource "https://cdn/2.jpg" 1080]].

(** * Further functions of the scripts *)

(** ** Further JavaScript primitives *)

(** [a * b] on numbers and [isNaN(a)]. *)
Definition mul (a b : number) : number :=
  match a, b with
  | Num x, Num y => Num (x * y)
  | _, _ => NaN
  end.

Definition isNaN (a : number) : bool :=
  match a with
  | NaN => true
  | Num _ => false
  end.

(** [s || dflt] for a string that is present: [''] is falsy. *)
Definition or_else (s dflt : string) : string :=
  match s with
  | EmptyString => dflt
  | String _ _ => s
  end.

(** The class [\w] of a regular expression without the unicode flag:
    letters, digits and the underscore. *)
Definition is_letter (c : ascii) : bool :=
  ((65 <=? code c) && (code c <=? 90)) || ((97 <=? code c) && (code c <=? 122)).

Definition is_alnum (c : ascii) : bool := is_letter c || is_digit c.

Definition is_word (c : ascii) : bool := is_alnum c || (code c =? 95).

(** [s.startsWith(t)]. *)
Definition startsWith (s t : string) : bool := String.prefix t s.

(** ** Command-line helpers *)




(** [parseTimeout(input?)], given [config.timeout] (an integer number of
    seconds when present): [config.timeout || 10] replaces an absent or
    zero value by 10. *)
Definition parseTimeout (config_timeout : option number) (input : option string)
    : number :=
  let defaultTimeout :=
    match config_timeout with
    | Some (Num z) => if z =? 0 then Num 10 else Num z
    | _ => Num 10
    end in
  if negb (truthy input) then mul defaultTimeout (Num 1000)
  else
    let timeout := parseInt (the_string input) in
    if isNaN timeout then mul defaultTimeout (Num 1000) else mul timeout (Num 1000).

(** [p.replace(/\/+$/, '')]: the string without its trailing slashes. *)
Fixpoint strip_trailing_slashes (p : string) : string :=
  match p with
  | EmptyString => EmptyString
  | String c p' =>
      match strip_trailing_slashes p' with
      | EmptyString => if Ascii.eqb c "/" then EmptyString else String c EmptyString
      | String c' r => String c (String c' r)
      end
  end.

(** What follows the last slash of [p], when there is one. *)
Fixpoint after_last_slash (p : string) : option string :=
  match p with
  | EmptyString => None
  | String c p' =>
      match after_last_slash p' with
      | Some r => Some r
      | None => if Ascii.eqb c "/" then Some p' else None
      end
  end.

(** [p.substring(p.lastIndexOf('/') + 1)]: the whole string when it has no
    slash. *)
Definition last_segment (p : string) : string :=
  match after_last_slash p with
  | Some r => r
  | None => p
  end.

(** [folder.replace(/[^\w-]/g, '')]. *)
Fixpoint keep_word_chars (folder : string) : string :=
  match folder with
  | EmptyString => EmptyString
  | String c s =>
      if is_word c || Ascii.eqb c "-"
      then String c (keep_word_chars s)
      else keep_word_chars s
  end.

(** [parseOutputFolder(urlString)].  [pathnameOf] stands for
    [new URL(urlString).pathname]; it is [None] when the constructor
    throws. *)
Definition parseOutputFolder (pathnameOf : string -> option string)
    (urlString : string) : string :=
  match pathnameOf urlString with
  | Some pathname =>
      let p := strip_trailing_slashes pathname in
      let folder := or_else (last_segment p) "output" in
      let folder := or_else (keep_word_chars folder) "output" in
      folder
  | None => "output"
  end.

(** The argument loop of [main]: the options found and the positional
    arguments, in order. *)
Record CliArgs : Type := mkCliArgs {
  sawVerbose : bool;
  timeoutArg : option string;
  outputArg : option string;
  qualityArg : option string;
  positionalArgs : list string
}.

Definition noArgs : CliArgs := mkCliArgs false None None None [].

Fixpoint parseArgsFrom (args : list string) (acc : CliArgs) : CliArgs :=
  match args with
  | [] => acc
  | arg :: rest =>
      if String.eqb arg "--verbose" then
        parseArgsFrom rest
          (mkCliArgs true (timeoutArg acc) (outputArg acc) (qualityArg acc)
                     (positionalArgs acc))
      else
        match String.eqb arg "--timeout", String.eqb arg "--output",
              String.eqb arg "--quality", rest with
        | true, _, _, value :: rest' =>
            parseArgsFrom rest'
              (mkCliArgs (sawVerbose acc) (Some value) (outputArg acc) (qualityArg acc)
                         (positionalArgs acc))
        | _, true, _, value :: rest' =>
            parseArgsFrom rest'
              (mkCliArgs (sawVerbose acc) (timeoutArg acc) (Some value) (qualityArg acc)
                         (positionalArgs acc))
        | _, _, true, value :: rest' =>
            parseArgsFrom rest'
              (mkCliArgs (sawVerbose acc) (timeoutArg acc) (outputArg acc) (Some value)
                         (positionalArgs acc))
        | _, _, _, _ =>
            if negb (startsWith arg "--") then
              parseArgsFrom rest
                (mkCliArgs (sawVerbose acc) (timeoutArg acc) (outputArg acc) (qualityArg acc)
                           (positionalArgs acc ++ [arg]))
            else parseArgsFrom rest acc
        end
  end.

Definition parseArgs (args : list string) : CliArgs := parseArgsFrom args noArgs.

(** ** Searching the JSON of a response *)

#[local] Unset Elimination Schemes.

(** A value as [JSON.parse] returns it.  The members of an object are
    listed in the order in which [for (const k in obj)] enumerates them;
    a number is represented by an integer, of which only being zero
    matters here. *)
Inductive Json : Type :=
| JNull : Json
| JBool (b : bool) : Json
| JNumber (z : Z) : Json
| JString (s : string) : Json
| JArray (items : list Json) : Json
| JObject (members : list (string * Json)) : Json.

#[local] Set Elimination Schemes.

(** Truthiness of a value. *)
Definition json_truthy (v : Json) : bool :=
  match v with
  | JNull => false
  | JBool b => b
  | JNumber z => negb (z =? 0)
  | JString s => match s with EmptyString => false | String _ _ => true end
  | JArray _ => true
  | JObject _ => true
  end.

Fixpoint lookup_member (key : string) (members : list (string * Json)) : option Json :=
  match members with
  | [] => None
  | (k, v) :: rest => if String.eqb k key then Some v else lookup_member key rest
  end.

(** [v.owner] and [v.username]: the member of an object; [undefined]
    ([None]) on an array and on a primitive. *)
Definition get_property (v : Json) (key : string) : option Json :=
  match v with
  | JObject members => lookup_member key members
  | _ => None
  end.

(** [obj.owner && obj.owner.username], as a condition. *)
Definition has_owner (obj : Json) : bool :=
  match get_property obj "owner" with
  | Some owner =>
      json_truthy owner &&
      match get_property owner "username" with
      | Some username => json_truthy username
      | None => false
      end
  | None => false
  end.

(** The first result of [f] on the elements of [l], in order. *)
Fixpoint first_found {A B : Type} (f : A -> option B) (l : list A) : option B :=
  match l with
  | [] => None
  | x :: rest =>
      match f x with
      | Some y => Some y
      | None => first_found f rest
      end
  end.

Fixpoint searchItemWithOwner (obj : Json) : option Json :=
  match obj with
  | JObject members =>
      if has_owner obj then Some obj
      else first_found (fun kv => searchItemWithOwner (snd kv)) members
  | JArray items => first_found searchItemWithOwner items
  | _ => None
  end.

(** [findJsonItemWithOwner(jsonStr)].  [JSON_parse] is [None] when
    [JSON.parse] throws. *)
Definition findJsonItemWithOwner (JSON_parse : string -> option Json)
    (jsonStr : string) : option Json :=
  match JSON_parse jsonStr with
  | Some obj => searchItemWithOwner obj
  | None => None
  end.



(** The characters that [parseOutputFolder] lets through. *)
Definition safe_char (c : ascii) : bool := is_word c || Ascii.eqb c "-".

Fixpoint all_safe (s : string) : bool :=
  match s with
  | String c s' => safe_char c && all_safe s'
  | EmptyString => true
  end.

(** A run of [n] slashes. *)
Fixpoint slashes (n : nat) : string :=
  match n with
  | O => EmptyString
  | S n' => String "/" (slashes n')
  end.

Definition is_option_name (arg : string) : bool :=
  String.eqb arg "--timeout" || String.eqb arg "--output" || String.eqb arg "--quality".

(** [v] occurs in [w]: it is [w] itself, or occurs in an element or in a
    member of [w]. *)
Inductive subvalue (v : Json) : Json -> Prop :=
| subvalue_here : subvalue v v
| subvalue_item (x : Json) (items : list Json) :
    In x items -> subvalue v x -> subvalue v (JArray items)
| subvalue_member (k : string) (x : Json) (members : list (string * Json)) :
    In (k, x) members -> subvalue v x -> subvalue v (JObject members).

Definition owner_of (name : string) : Json :=
  JObject [("username", JString name)].

Definition response_with_owner : Json :=
  JObject [("data", JObject [("items", JArray [JNumber 1;
             JObject [("id", JString "1"); ("owner", owner_of "alice")]])]);
           ("extra", JObject [("owner", owner_of "bob")])].

(** The [Range] header of a call to [downloadRange]: set only when both
    bounds are given. *)
Definition rangeHeader (start end_ : option number) : option (number * number) :=
  match start, end_ with
  | Some a, Some b => Some (a, b)
  | _, _ => None
  end.

(** The second rule of the search: the first representation of the set
    has a [mimeType] containing [mime] or a [codecs] containing [codec]. *)
Definition sniffs (mime codec : string) (a : DashAdaptationSet) : bool :=
  match first (asArray (Representation a)) with
  | Some rep0 =>
      (truthy (mimeType (repr_attrs rep0))
       && includes (the_string (mimeType (repr_attrs rep0))) mime)
      || (truthy (codecs (repr_attrs rep0))
          && includes (the_string (codecs (repr_attrs rep0))) codec)
  | None => false
  end.

(** The set holds an array of representations that is empty. *)
Definition emptyArray (a : DashAdaptationSet) : bool :=
  match Representation a with
  | RepArray [] => true
  | _ => false
  end.

Definition video_set_by_codec : DashAdaptationSet :=
  mkAdaptationSet None
    (RepSingle (mkRepr (mkReprAttrs "v" None (Some "avc1.4d401f") None None) [] [])).

Definition audio_set_by_mime : DashAdaptationSet :=
  mkAdaptationSet None
    (RepArray [mkRepr (mkReprAttrs "a" None None (Some "audio/mp4") None) [] []]).

(** The manifest [mpdXml] parses and leads to the two representations
    that [downloadBestQualityDash] downloads. *)
Definition selects (env : Env) (mpdXml : string)
    (bestVideo bestAudio : DashRepresentation) : Prop :=
  exists mpd period sets videoSet audioSet,
    parseStringPromise env mpdXml = Some mpd /\
    first (Period mpd) = Some period /\
    AdaptationSet period = Some sets /\
    findVideoAdaptationSet sets = Ok (Some videoSet) /\
    findAudioAdaptationSet sets = Ok (Some audioSet) /\
    pickBestRepresentation (asArray (Representation videoSet)) = Some bestVideo /\
    pickBestRepresentation (asArray (Representation audioSet)) = Some bestAudio.

(** The representation has what [downloadDashRepresentation] reads. *)
Definition fetchable (repr : DashRepresentation) (url : string)
    (segBase : DashSegmentBase) (init : DashInitialization) : Prop :=
  first (BaseURL repr) = Some url /\
  first (SegmentBase repr) = Some segBase /\
  first (Initialization segBase) = Some init.

(** The chunks, or the error, and the requests of the assembly of one
    representation. *)
Definition assembly (env : Env) (repr : DashRepresentation) (url : string)
    (segBase : DashSegmentBase) (init : DashInitialization)
    : Result (list Buffer) * list Request :=
  fetchRanges env url (plannedRanges repr segBase init).

Definition sample_repr (name url bw initRange total : string) : DashRepresentation :=
  mkRepr (mkReprAttrs name (Some bw) None None (Some total)) [url]
    [mkSegmentBase None None None [mkInit initRange]].

Definition sample_mpd : DashMPD :=
  mkMPD [mkPeriod (Some
    [mkAdaptationSet (Some "audio") (RepSingle (sample_repr "a1" "a" "128000" "0-49" "500"));
     mkAdaptationSet (Some "video")
       (RepArray [sample_repr "v1" "v-low" "100000" "0-99" "400";
                  sample_repr "v2" "v" "500000" "0-99" "1000"])])].

(** A multiplexer that writes the two temporary files one after the other
    into the output file. *)
Definition joining_ffmpeg (outPath : string) (files : Files) : Z * Files :=
  (0, <[outPath := default [] (files !! temp_video) ++ default [] (files !! temp_audio)]> files).

(** A server that answers range requests exactly, except for the URLs
    listed in [broken], for which it answers 404. *)
Definition manifest_server (manifest : option DashMPD) (broken : list string) : Env :=
  mkEnv
    (fun rq =>
       if existsb (String.eqb (req_url rq)) broken
       then Resolves (mkResponse false 404 [])
       else match req_range rq with
            | Some (Num a, Num b) => Resolves (mkResponse true 206 (zeros (b - a + 1)))
            | _ => Resolves (mkResponse true 200 [])
            end)
    joining_ffmpeg
    (fun _ => manifest)
    (fun dir file => (dir ++ "/" ++ file)%string)
    false.

(** [item.dash_info && item.dash_info.video_dash_manifest], as a
    condition. *)
Definition hasManifest (item : InstagramMediaItem) : bool :=
  match dash_info item with
  | Some (mkDashInfo (String _ _)) => true
  | _ => false
  end.

(** [Array.isArray(item.display_resources) && item.display_resources.length > 0],
    as a condition. *)
Definition hasDisplayResources (item : InstagramMediaItem) : bool :=
  match display_resources item with
  | Some (_ :: _) => true
  | _ => false
  end.

(** The number of items without children in the tree of [item]. *)
Fixpoint leaves (item : InstagramMediaItem) : Z :=
  match edge_sidecar_to_children item with
  | Some edges => fold_right (fun child n => leaves child + n) 0 edges
  | None => 1
  end.

(** ** Filtering intercepted resources *)

Record Resource : Type := mkResource {
  url : string;
  buf : Buffer;
  ctype : string
}.

(** The library functions used by [filterAndSaveMedia]:
    [new URL(u).pathname] ([None] when the constructor throws),
    [path.basename] and [sizeOf] of the [image-size] package ([None] when
    it throws; a dimension it does not report is [NaN]). *)
Record Libraries : Type := mkLibraries {
  pathnameOf : string -> option string;
  basename : string -> string;
  sizeOf : Buffer -> option (number * number)
}.

(** [s.split(c)[0]]: what precedes the first [c]. *)
Fixpoint first_piece (c : ascii) (s : string) : string :=
  match s with
  | EmptyString => EmptyString
  | String x s' => if Ascii.eqb x c then EmptyString else String x (first_piece c s')
  end.

(** [s.split(c)[1]]: what lies between the first [c] and the next one;
    [None] ([undefined]) when [s] has no [c]. *)
Fixpoint second_piece (c : ascii) (s : string) : option string :=
  match s with
  | EmptyString => None
  | String x s' => if Ascii.eqb x c then Some (first_piece c s') else second_piece c s'
  end.

Fixpoint all_alnum (s : string) : bool :=
  match s with
  | EmptyString => true
  | String c s' => is_alnum c && all_alnum s'
  end.

(** [/\.[a-zA-Z0-9]+$/.test(s)]. *)
Fixpoint has_extension (s : string) : bool :=
  match s with
  | EmptyString => false
  | String c s' =>
      (Ascii.eqb c "." && match s' with EmptyString => false | String _ _ => all_alnum s' end)
      || has_extension s'
  end.

(** [Buffer.byteLength(s, 'utf8')]: one byte for a code unit below 128,
    two bytes for the others of the one-byte range. *)
Fixpoint utf8_length (s : string) : Z :=
  match s with
  | EmptyString => 0
  | String c s' => (if code c <? 128 then 1 else 2) + utf8_length s'
  end.

(** The name under which [filterAndSaveMedia] saves a resource. *)
Definition savedName (lib : Libraries) (pathname : string) (resource : Resource) : string :=
  let baseName := or_else (basename lib pathname) "file" in
  if negb (has_extension baseName) then
    match second_piece "/" (first_piece ";" (ctype resource)) with
    | Some (String c ext) => (baseName ++ "." ++ String c ext)%string
    | _ => baseName
    end
  else baseName.

Definition filterAndSaveMedia (env : Env) (lib : Libraries) (folderName : string)
    (resource : Resource) (threshold : number) : M bool :=
  if lt (Num (Z.of_nat (length (buf resource)))) threshold then
    let* _ := logDebug env "Resource below threshold, skipping:" in
    ret false
  else
    let* pathname :=
      match pathnameOf lib (url resource) with
      | Some p => ret p
      | None => throw TypeError
      end in
    let baseName := savedName lib pathname resource in
    if utf8_length baseName >? 128 then
      let* _ := logDebug env "Filename too long, skipping:" in
      ret false
    else
      let save : M bool :=
        let* _ := mkdirSync folderName in
        let* _ := writeFileSync (path_join env folderName baseName) (buf resource) in
        let* _ := console_log "Saved file =>" in
        ret true in
      if startsWith (ctype resource) "image/" then
        if String.eqb (ctype resource) "image/png" then
          let* _ := logDebug env "Skipping PNG" in
          ret false
        else
          match sizeOf lib (buf resource) with
          | None => ret false
          | Some (width, height) =>
              if lt width (Num 161) || lt height (Num 161) then
                let* _ := logDebug env "Image dimension too small, skipping:" in
                ret false
              else save
          end
      else save.

Definition jpeg_libraries : Libraries :=
  mkLibraries (fun _ => Some "/media/pic") (fun _ => "pic")
    (fun _ => Some (Num 200, Num 300)).

Definition jpeg_resource : Resource :=
  mkResource "https://cdn/media/pic" [Byte.x01; Byte.x02] "image/jpeg; q=1".

(** ** The older script [get_insta.js] *)

(** Its [downloadDashRepresentation] differs from the one of [get.ts] in
    the loop over the prefetch ranges: [const [s, e] = parseByteRange(sr)]
    destructures the result without testing it, which raises a
    [TypeError] when the range does not parse. *)
Module GetInsta.

Fixpoint downloadSegRanges (env : Env) (baseURL : option string)
    (segRanges : list string) (chunks : list Buffer) : M (list Buffer) :=
  match segRanges with
  | [] => ret chunks
  | sr :: rest =>
      match parseByteRange sr with
      | None => throw TypeError
      | Some (s, e) =>
          let* _ := logDebug env "[downloadDashRepresentation] Download =>" in
          let* segBuf := downloadRange env baseURL (Some s) (Some e) in
          downloadSegRanges env baseURL rest (chunks ++ [segBuf])
      end
  end.

Definition downloadDashRepresentation (env : Env) (repr : DashRepresentation)
    : M Buffer :=
  let baseURL := first (BaseURL repr) in
  let segBase := first (SegmentBase repr) in
  let* _ := logDebug env "[downloadDashRepresentation] Representation ID=" in
  let totalLen := parseInt (or_default (FBContentLength (repr_attrs repr)) "0") in
  let* segBase := deref segBase in
  let* init := deref (first (Initialization segBase)) in
  let initRangeStr := range init in
  let initRange :=
    match parseByteRange initRangeStr with
    | Some r => r
    | None => (Num 0, Num 0)
    end in
  let* _ := logDebug env "[downloadDashRepresentation] initRange=" in
  let* initBuf := downloadRange env baseURL (Some (fst initRange)) (Some (snd initRange)) in
  let chunks := [initBuf] in
  let* chunks :=
    if gt totalLen (Num 0) then
      let startByte := add (snd initRange) (Num 1) in
      let endByte := sub totalLen (Num 1) in
      let* _ := logDebug env "[downloadDashRepresentation] Download entire =>" in
      let* mainBuf := downloadRange env baseURL (Some startByte) (Some endByte) in
      ret (chunks ++ [mainBuf])
    else
      downloadSegRanges env baseURL (collectSegRanges segBase) chunks in
  let resultBuf := concat chunks in
  let* _ := logDebug env "[downloadDashRepresentation] Combined =>" in
  ret resultBuf.

End GetInsta.

(** Every request is answered with an OK response. *)
Definition always_answers (env : Env) : Prop :=
  forall rq, exists resp, nodeFetch env rq = Resolves resp /\ ok resp = true.

(** ** Cookie files *)

Definition tab : ascii := "009"%char.
Definition newline : ascii := "010"%char.

(** [s.split(sep)] for a separator of one character. *)
Fixpoint split (sep : ascii) (s : string) : list string :=
  match s with
  | EmptyString => [EmptyString]
  | String c s' =>
      if Ascii.eqb c sep then EmptyString :: split sep s'
      else
        match split sep s' with
        | piece :: pieces => String c piece :: pieces
        | [] => [String c EmptyString]
        end
  end.

Fixpoint trim_end (s : string) : string :=
  match s with
  | EmptyString => EmptyString
  | String c s' =>
      match trim_end s' with
      | EmptyString => if is_space c then EmptyString else String c EmptyString
      | kept => String c kept
      end
  end.

(** [s.trim()]. *)
Definition trim (s : string) : string := trim_end (trim_start s).

Inductive SameSite : Type := Strict | Lax | NoneSite.

Record Cookie : Type := mkCookie {
  name : string;
  value : string;
  domain : option string;
  path : option string;
  httpOnly : option bool;
  secure : option bool;
  sameSite : option SameSite
}.

(** [parts[i]] where the index is known to be in range. *)
Definition part (parts : list string) (i : nat) : string := nth i parts EmptyString.

(** The loop of [loadCookiesFromFile] over the lines of the file. *)
Fixpoint parseCookieLines (lines : list string) (cookies : list Cookie) : list Cookie :=
  match lines with
  | [] => cookies
  | line :: rest =>
      let trimmed := trim line in
      if negb (truthy (Some trimmed)) || startsWith trimmed "#" then
        parseCookieLines rest cookies
      else
        let parts := split tab trimmed in
        if (7 <=? length parts)%nat then
          parseCookieLines rest
            (cookies ++ [mkCookie (part parts 5) (part parts 6)
                                  (Some (part parts 0)) (Some (part parts 2))
                                  (Some (String.eqb (part parts 1) "TRUE"))
                                  (Some (String.eqb (part parts 3) "TRUE"))
                                  (Some Lax)])
        else parseCookieLines rest cookies
  end.

(** [fs.readFileSync(path, 'utf-8')]; [utf8] decodes the bytes. *)
Definition readFileSync (utf8 : Buffer -> string) (path : string) : M string :=
  fun w =>
    match fs w !! path with
    | Some data => (Ok (utf8 data), w)
    | None => (Throw (ENOENT path), w)
    end.

Definition loadCookiesFromFile (env : Env) (utf8 : Buffer -> string)
    (filePath : string) : M (option (list Cookie)) :=
  try_catch
    (let* content := readFileSync utf8 filePath in
     let cookies := [] in
     let lines := split newline content in
     let cookies := parseCookieLines lines cookies in
     let* _ := logDebug env "[Cookies] Loaded" in
     ret (Some cookies))
    (fun error =>
       let* _ := console_log "Error reading cookies file:" in
       ret None).

Fixpoint has_char (c : ascii) (s : string) : bool :=
  match s with
  | EmptyString => false
  | String c' s' => Ascii.eqb c' c || has_char c s'
  end.

Fixpoint count_char (c : ascii) (s : string) : nat :=
  match s with
  | EmptyString => 0%nat
  | String c' s' => ((if Ascii.eqb c' c then 1 else 0) + count_char c s')%nat
  end.

(** One line of a cookie file in the Netscape format, by its seven
    fields. *)
Record CookieLine : Type := mkCookieLine {
  domain_field : string;
  flag_field : string;
  path_field : string;
  secure_field : string;
  expiry_field : string;
  name_field : string;
  value_field : string
}.

Definition fields (e : CookieLine) : list string :=
  [domain_field e; flag_field e; path_field e; secure_field e;
   expiry_field e; name_field e; value_field e].

Definition render (e : CookieLine) : string :=
  (domain_field e ++ String tab
    (flag_field e ++ String tab
      (path_field e ++ String tab
        (secure_field e ++ String tab
          (expiry_field e ++ String tab
            (name_field e ++ String tab (value_field e)))))))%string.

(** The file with one line per entry, each ended by a line feed. *)
Definition cookies_txt (entries : list CookieLine) : string :=
  fold_right (fun e rest => (render e ++ String newline rest)%string) EmptyString entries.

Definition cookie_of (e : CookieLine) : Cookie :=
  mkCookie (name_field e) (value_field e)
           (Some (domain_field e)) (Some (path_field e))
           (Some (String.eqb (flag_field e) "TRUE"))
           (Some (String.eqb (secure_field e) "TRUE"))
           (Some Lax).

(** No field holds a tab or a line feed. *)
Definition clean_fields (e : CookieLine) : bool :=
  forallb (fun f => negb (has_char tab f) && negb (has_char newline f)) (fields e).

(** [s] begins with a character that is neither white space nor [#]. *)
Definition starts_clean (s : string) : bool :=
  match s with
  | String c _ => negb (is_space c) && negb (Ascii.eqb c "#")
  | EmptyString => false
  end.

(** [s] ends with a character that is not white space. *)
Fixpoint ends_clean (s : string) : bool :=
  match s with
  | EmptyString => false
  | String c EmptyString => negb (is_space c)
  | String _ s' => ends_clean s'
  end.

Definition well_formed (e : CookieLine) : bool :=
  clean_fields e && starts_clean (domain_field e) && ends_clean (value_field e).

Definition sample_entries : list CookieLine :=
  [mkCookieLine ".instagram.com" "TRUE" "/" "TRUE" "1767225600" "sessionid" "abc123";
   mkCookieLine "instagram.com" "FALSE" "/" "FALSE" "0" "csrftoken" "x y"].

Definition world_with_file (path : string) (text : string) : World :=
  mkWorld {[ path := list_byte_of_string text ]} [] [] [].

(** * Properties *)

(** ** Decimal strings *)

Lemma string_app_cons (c : ascii) (s r : string) :
  (String c s ++ r)%string = String c (s ++ r)%string.
Proof. reflexivity. Qed.











(** ** Byte-range parsing *)







(** ** Selecting the adaptation sets *)

Lemma find_filter {A : Type} (f : A -> bool) (l : list A) :
  find f l = head (List.filter f l).
Proof.
  induction l as [|x l IH]; simpl; [reflexivity|].
  destruct (f x); [reflexivity | exact IH].
Qed.

Lemma filter_permutation {A : Type} (f : A -> bool) (l l' : list A) :
  Permutation l l' -> Permutation (List.filter f l) (List.filter f l').
Proof.
  induction 1 as [|x l l' _ IH|x y l|l l' l'' _ IH1 _ IH2]; simpl.
  - constructor.
  - destruct (f x); [now constructor | exact IH].
  - destruct (f x), (f y); try reflexivity. apply perm_swap.
  - now transitivity (List.filter f l').
Qed.

Lemma find_unique_permutation {A : Type} (f : A -> bool) (l l' : list A) (x : A) :
  List.filter f l = [x] -> Permutation l l' -> find f l' = Some x.
Proof.
  intros Hx Hperm. rewrite find_filter.
  apply (filter_permutation f) in Hperm. rewrite Hx in Hperm.
  apply Permutation_length_1_inv in Hperm. now rewrite Hperm.
Qed.

(** C7: when exactly one adaptation set has a [contentType] equal to
    ["video"] up to letter case and exactly one has a [contentType] equal
    to ["audio"] up to letter case, [findVideoAdaptationSet] returns the
    former and [findAudioAdaptationSet] the latter, in whatever order the
    sets are listed. *)
Theorem find_tagged_adaptation_sets
    (sets sets' : list DashAdaptationSet) (v a : DashAdaptationSet) :
  List.filter (hasContentType "video") sets = [v] ->
  List.filter (hasContentType "audio") sets = [a] ->
  Permutation sets sets' ->
  findVideoAdaptationSet sets' = Ok (Some v) /\
  findAudioAdaptationSet sets' = Ok (Some a).
Proof.
  intros Hv Ha Hperm.
  unfold findVideoAdaptationSet, findAudioAdaptationSet, findAdaptationSet.
  rewrite (find_unique_permutation _ _ _ _ Hv Hperm).
  rewrite (find_unique_permutation _ _ _ _ Ha Hperm).
  split; reflexivity.
Qed.

Lemma find_tagged_adaptation_sets_witness :
  findVideoAdaptationSet
    [set_tagged (Some "Video"); set_tagged None; set_tagged (Some "AUDIO")]
  = Ok (Some (set_tagged (Some "Video"))) /\
  findAudioAdaptationSet
    [set_tagged (Some "Video"); set_tagged None; set_tagged (Some "AUDIO")]
  = Ok (Some (set_tagged (Some "AUDIO"))).
Proof.
  apply (find_tagged_adaptation_sets
           [set_tagged (Some "AUDIO"); set_tagged (Some "Video"); set_tagged None]).
  - reflexivity.
  - reflexivity.
  - apply (Permutation_cons_app [_; _] []). reflexivity.
Defined.

(** ** Ranking by bandwidth *)

Lemma parseable_bandwidth (r : DashRepresentation) :
  parseable r -> bandwidthOf r = Num (bandwidthOrZero r).
Proof.
  unfold parseable, bandwidthOrZero. destruct (bandwidthOf r); congruence.
Qed.

Lemma comes_before_parseable (y x : DashRepresentation) :
  parseable y -> parseable x ->
  comes_before bandwidthCompare y x = (bandwidthOrZero x <? bandwidthOrZero y).
Proof.
  intros Hy Hx. unfold comes_before, bandwidthCompare, lt.
  rewrite (parseable_bandwidth _ Hy), (parseable_bandwidth _ Hx). simpl.
  destruct (Z.ltb_spec (bandwidthOrZero x - bandwidthOrZero y) 0),
           (Z.ltb_spec (bandwidthOrZero x) (bandwidthOrZero y)); try reflexivity; lia.
Qed.

Lemma Forall_insert_sorted {A : Type} (cmp : A -> A -> number) (P : A -> Prop)
    (x : A) (l : list A) :
  P x -> Forall P l -> Forall P (insert_sorted cmp x l).
Proof.
  intros Hx Hl. induction Hl as [|y l Hy Hl IH]; simpl.
  - now constructor.
  - destruct (comes_before cmp y x); repeat constructor; auto.
Qed.

Lemma Forall_sort {A : Type} (cmp : A -> A -> number) (P : A -> Prop) (l : list A) :
  Forall P l -> Forall P (sort cmp l).
Proof.
  induction 1 as [|x l Hx Hl IH]; simpl; [constructor|].
  now apply Forall_insert_sorted.
Qed.

Lemma descending_insert_sorted (x : DashRepresentation) (l : list DashRepresentation) :
  parseable x -> Forall parseable l -> descending l ->
  descending (insert_sorted bandwidthCompare x l).
Proof.
  intros Hx Hl. induction Hl as [|y l Hy Hl IH]; intros Hd.
  - simpl. auto.
  - cbn [insert_sorted]. rewrite (comes_before_parseable y x Hy Hx).
    destruct (Z.ltb_spec (bandwidthOrZero x) (bandwidthOrZero y)) as [Hlt|Hge].
    + destruct Hd as [Hhd Hd]. specialize (IH Hd).
      split; [|exact IH].
      destruct l as [|z l]; [simpl; lia|].
      cbn [insert_sorted].
      destruct (comes_before bandwidthCompare z x); [exact Hhd | lia].
    + split; [exact Hge | exact Hd].
Qed.

Lemma descending_sort (l : list DashRepresentation) :
  Forall parseable l -> descending (sort bandwidthCompare l).
Proof.
  induction 1 as [|x l Hx Hl IH]; [exact I|].
  cbn [sort]. apply descending_insert_sorted; auto using Forall_sort.
Qed.

Lemma sort_descending (l : list DashRepresentation) :
  Forall parseable l -> descending l -> sort bandwidthCompare l = l.
Proof.
  induction 1 as [|x l Hx Hl IH]; [reflexivity|].
  intros [Hhd Hd]. cbn [sort]. rewrite (IH Hd).
  destruct l as [|y l]; [reflexivity|].
  cbn [insert_sorted].
  rewrite (comes_before_parseable y x (Forall_inv Hl) Hx).
  destruct (Z.ltb_spec (bandwidthOrZero x) (bandwidthOrZero y)); [lia | reflexivity].
Qed.

Lemma first_insert_sorted {A : Type} (cmp : A -> A -> number) (x : A) (l : list A) :
  first (insert_sorted cmp x l)
  = Some match first l with
         | Some y => if comes_before cmp y x then y else x
         | None => x
         end.
Proof.
  destruct l as [|y l]; [reflexivity|]. simpl.
  destruct (comes_before cmp y x); reflexivity.
Qed.

(** The first element of the sorted array is the first-listed element of
    the input among those of maximum bandwidth. *)
Lemma first_sort_first_maximum (l : list DashRepresentation) :
  l <> [] -> Forall parseable l ->
  exists pre best post,
    l = pre ++ best :: post /\
    first (sort bandwidthCompare l) = Some best /\
    Forall (fun r => bandwidthOrZero r < bandwidthOrZero best) pre /\
    Forall (fun r => bandwidthOrZero r <= bandwidthOrZero best) post.
Proof.
  intros Hne Hl. induction Hl as [|x l Hx Hl IH]; [congruence|].
  cbn [sort]. rewrite first_insert_sorted.
  destruct l as [|y l].
  - exists [], x, []. simpl. repeat split; constructor.
  - destruct IH as (pre & best & post & Heq & Hfirst & Hpre & Hpost); [congruence|].
    rewrite Hfirst.
    assert (Hbest : parseable best).
    { rewrite List.Forall_forall in Hl. apply Hl. rewrite Heq.
      apply in_or_app. right. now left. }
    rewrite (comes_before_parseable best x Hbest Hx).
    destruct (Z.ltb_spec (bandwidthOrZero x) (bandwidthOrZero best)) as [Hlt|Hge].
    + exists (x :: pre), best, post. rewrite Heq.
      repeat split; auto.
    + exists [], x, (y :: l). repeat split; [constructor|].
      rewrite Heq. apply Forall_app. split; [|constructor].
      * eapply List.Forall_impl; [|exact Hpre]. simpl. intros; lia.
      * exact Hge.
      * eapply List.Forall_impl; [|exact Hpost]. simpl. intros; lia.
Qed.

(** The claim of C6 fails for an unparseable bandwidth: [parseInt] yields
    [NaN], every comparison with it counts as "equal", and the
    representation stays in front of one whose bandwidth is 100, although
    it would rank as 0. *)
Lemma pickBestRepresentation_unparseable_bandwidth :
  pickBestRepresentation
    [repr_with_bandwidth "a" (Some "abc"); repr_with_bandwidth "b" (Some "100")]
  = Some (repr_with_bandwidth "a" (Some "abc")) /\
  bandwidthOrZero (repr_with_bandwidth "a" (Some "abc")) = 0 /\
  bandwidthOrZero (repr_with_bandwidth "b" (Some "100")) = 100.
Proof. repeat split. Qed.

(** C6 (amended): a missing (or empty) bandwidth attribute ranks as 0;
    for every non-empty list of representations whose bandwidth attributes
    are missing or start with an integer, the ranking returns the
    first-listed representation of maximum bandwidth: every representation
    listed before it has a strictly smaller bandwidth, every one listed
    after it a smaller or equal one; ranking the already sorted array
    again returns the same representation. *)
Theorem pickBestRepresentation_first_maximum (reprs : list DashRepresentation) :
  reprs <> [] ->
  Forall parseable reprs ->
  (forall r, truthy (bandwidth (repr_attrs r)) = false -> bandwidthOf r = Num 0) /\
  exists pre best post,
    reprs = pre ++ best :: post /\
    pickBestRepresentation reprs = Some best /\
    Forall (fun r => bandwidthOrZero r < bandwidthOrZero best) pre /\
    Forall (fun r => bandwidthOrZero r <= bandwidthOrZero best) post /\
    pickBestRepresentation (sort bandwidthCompare reprs) = Some best.
Proof.
  intros Hne Hl. split.
  - intros r Hr. unfold bandwidthOf.
    destruct (bandwidth (repr_attrs r)) as [[|c s]|]; try discriminate Hr; reflexivity.
  - destruct (first_sort_first_maximum reprs Hne Hl)
      as (pre & best & post & Heq & Hfirst & Hpre & Hpost).
    exists pre, best, post. repeat split; auto.
    unfold pickBestRepresentation.
    rewrite sort_descending; auto using Forall_sort, descending_sort.
Qed.

Lemma pickBestRepresentation_first_maximum_witness :
  exists pre best post,
    [repr_with_bandwidth "a" (Some "500"); repr_with_bandwidth "b" None;
     repr_with_bandwidth "c" (Some "900"); repr_with_bandwidth "d" (Some "900")]
    = pre ++ best :: post /\
    pickBestRepresentation
      [repr_with_bandwidth "a" (Some "500"); repr_with_bandwidth "b" None;
       repr_with_bandwidth "c" (Some "900"); repr_with_bandwidth "d" (Some "900")]
    = Some best /\
    Forall (fun r => bandwidthOrZero r < bandwidthOrZero best) pre /\
    Forall (fun r => bandwidthOrZero r <= bandwidthOrZero best) post /\
    pickBestRepresentation
      (sort bandwidthCompare
         [repr_with_bandwidth "a" (Some "500"); repr_with_bandwidth "b" None;
          repr_with_bandwidth "c" (Some "900"); repr_with_bandwidth "d" (Some "900")])
    = Some best.
Proof.
  apply pickBestRepresentation_first_maximum.
  - discriminate.
  - repeat constructor; discriminate.
Defined.

Example pickBestRepresentation_tie :
  pickBestRepresentation
    [repr_with_bandwidth "a" (Some "500"); repr_with_bandwidth "b" None;
     repr_with_bandwidth "c" (Some "900"); repr_with_bandwidth "d" (Some "900")]
  = Some (repr_with_bandwidth "c" (Some "900")).
Proof. reflexivity. Qed.

(** ** Running the segment assembly *)

Lemma unchanged_refl (w : World) : unchanged_but_requests [] w w.
Proof. unfold unchanged_but_requests. now rewrite app_nil_r. Qed.

Lemma unchanged_trans (l1 l2 : list Request) (w1 w2 w3 : World) :
  unchanged_but_requests l1 w1 w2 -> unchanged_but_requests l2 w2 w3 ->
  unchanged_but_requests (l1 ++ l2) w1 w3.
Proof.
  intros (R1 & F1 & C1) (R2 & F2 & C2). unfold unchanged_but_requests.
  rewrite R2, R1, F2, F1, C2, C1, app_assoc. auto.
Qed.

Lemma logDebug_run (env : Env) (msg : string) (w : World) :
  exists w', logDebug env msg w = (Ok tt, w') /\ unchanged_but_requests [] w w'.
Proof.
  unfold logDebug. destruct (isVerbose env).
  - eexists. split; [reflexivity|]. unfold unchanged_but_requests. simpl.
    now rewrite app_nil_r.
  - eexists. split; [reflexivity | apply unchanged_refl].
Qed.

Ltac run_log env msg w :=
  let w' := fresh "w" in
  let E := fresh "E" in
  let U := fresh "U" in
  destruct (logDebug_run env msg w) as (w' & E & U);
  unfold bind at 1; rewrite E; clear E.

Lemma downloadRange_run (env : Env) (url : string) (a b : number) (w : World) :
  exists w',
    downloadRange env (Some url) (Some a) (Some b) w = (fetchResult env url (a, b), w') /\
    unchanged_but_requests [mkRequest url (Some (a, b))] w w'.
Proof.
  unfold downloadRange, fetchResult, deref, fetch, logDebug, unchanged_but_requests.
  unfold bind, ret, throw, console_log.
  destruct (isVerbose env);
    destruct (nodeFetch env (mkRequest url (Some (a, b)))) as [|res]; simpl;
    try destruct (ok res); simpl; eexists; (split; [reflexivity|]); simpl; auto.
Qed.

Lemma downloadSegRanges_run (env : Env) (url : string) (segRanges : list string)
    (chunks : list Buffer) (w : World) :
  exists w',
    downloadSegRanges env (Some url) segRanges chunks w
    = (result_map (app chunks) (fst (fetchRanges env url (omap parseByteRange segRanges))), w')
    /\ unchanged_but_requests (snd (fetchRanges env url (omap parseByteRange segRanges))) w w'.
Proof.
  revert chunks w. induction segRanges as [|sr rest IH]; intros chunks w.
  - simpl. exists w. rewrite app_nil_r. split; [reflexivity | apply unchanged_refl].
  - cbn [downloadSegRanges omap list_omap].
    destruct (parseByteRange sr) as [[s e]|]; [|apply IH].
    cbn [fetchRanges].
    run_log env "[downloadDashRepresentation] Download =>" w.
    destruct (downloadRange_run env url s e w0) as (w1 & E1 & U1).
    unfold bind at 1. rewrite E1.
    destruct (fetchResult env url (s, e)) as [buf|err].
    + destruct (IH (chunks ++ [buf]) w1) as (w2 & E2 & U2).
      exists w2. rewrite E2.
      destruct (fetchRanges env url (omap parseByteRange rest)) as [res log].
      split.
      * destruct res; simpl; [|reflexivity]. now rewrite <- app_assoc.
      * apply (unchanged_trans [] _ w w0 w2 U).
        apply (unchanged_trans [_] _ w0 w1 w2 U1 U2).
    + exists w1. split; [reflexivity|].
      apply (unchanged_trans [] _ w w0 w1 U U1).
Qed.

(** [downloadDashRepresentation] sends the planned requests one after the
    other, stops at the first that fails with its error, and otherwise
    returns the concatenation of the chunks received; it touches neither
    the files nor the multiplexer. *)
Lemma downloadDashRepresentation_run (env : Env) (repr : DashRepresentation)
    (url : string) (segBase : DashSegmentBase) (init : DashInitialization)
    (w : World) :
  first (BaseURL repr) = Some url ->
  first (SegmentBase repr) = Some segBase ->
  first (Initialization segBase) = Some init ->
  exists w',
    downloadDashRepresentation env repr w
    = (result_map (@concat _) (fst (fetchRanges env url (plannedRanges repr segBase init))), w')
    /\ unchanged_but_requests (snd (fetchRanges env url (plannedRanges repr segBase init))) w w'.
Proof.
  intros Hurl Hsb Hinit. unfold downloadDashRepresentation.
  rewrite Hurl, Hsb.
  run_log env "[downloadDashRepresentation] Representation ID=" w.
  unfold bind at 1. cbn [deref ret]. rewrite Hinit.
  unfold bind at 1. cbn [deref ret].
  fold (initRangeOf init). fold (totalLenOf repr).
  run_log env "[downloadDashRepresentation] initRange=" w0.
  destruct (downloadRange_run env url (fst (initRangeOf init)) (snd (initRangeOf init)) w1)
    as (w2 & E2 & U2).
  rewrite <- surjective_pairing in E2, U2.
  unfold bind at 1. rewrite E2.
  unfold plannedRanges. cbn [fetchRanges].
  destruct (fetchResult env url (initRangeOf init)) as [initBuf|err].
  2:{ exists w2. split; [reflexivity|].
      apply (unchanged_trans [] _ w w0 w2 U).
      apply (unchanged_trans [] _ w0 w1 w2 U0 U2). }
  assert (U02 : unchanged_but_requests [mkRequest url (Some (initRangeOf init))] w w2).
  { apply (unchanged_trans [] _ w w0 w2 U).
    apply (unchanged_trans [] _ w0 w1 w2 U0 U2). }
  clear U U0 U2 E2 w0 w1.
  destruct (gt (totalLenOf repr) (Num 0)).
  - unfold bind at 1.
    run_log env "[downloadDashRepresentation] Download entire =>" w2.
    destruct (downloadRange_run env url (add (snd (initRangeOf init)) (Num 1))
                (sub (totalLenOf repr) (Num 1)) w0) as (w3 & E3 & U3).
    unfold bind at 1. rewrite E3.
    cbn [fetchRanges].
    destruct (fetchResult env url _) as [mainBuf|err].
    + cbn [ret].
      run_log env "[downloadDashRepresentation] Combined =>" w3.
      exists w1. split; [reflexivity|].
      apply (unchanged_trans [_] [_] w w2 w1 U02).
      apply (unchanged_trans [] [_] w2 w0 w1 U).
      rewrite <- (app_nil_r [_]).
      apply (unchanged_trans [_] [] w0 w3 w1 U3 U0).
    + exists w3. split; [reflexivity|].
      apply (unchanged_trans [_] [_] w w2 w3 U02).
      apply (unchanged_trans [] [_] w2 w0 w3 U U3).
  - destruct (downloadSegRanges_run env url (collectSegRanges segBase) [initBuf] w2)
      as (w3 & E3 & U3).
    unfold bind at 1. rewrite E3.
    destruct (fetchRanges env url (omap parseByteRange (collectSegRanges segBase)))
      as [res log].
    cbn [fst snd] in *.
    destruct res as [bufs|err]; cbn [result_map].
    + run_log env "[downloadDashRepresentation] Combined =>" w3.
      exists w0. split; [reflexivity|].
      apply (unchanged_trans [_] log w w2 w0 U02).
      rewrite <- (app_nil_r log).
      apply (unchanged_trans log [] w2 w3 w0 U3 U).
    + exists w3. split; [reflexivity|].
      apply (unchanged_trans [_] log w w2 w3 U02 U3).
Qed.

Lemma fetchRanges_ok (env : Env) (url : string) (ranges : list (number * number))
    (bufs : list Buffer) :
  fst (fetchRanges env url ranges) = Ok bufs ->
  snd (fetchRanges env url ranges) = map (rangeRequest url) ranges /\
  Forall2 (fun r buf => fetchResult env url r = Ok buf) ranges bufs.
Proof.
  revert bufs. induction ranges as [|r rest IH]; intros bufs; cbn [fetchRanges].
  - intros [= <-]. split; [reflexivity | constructor].
  - destruct (fetchResult env url r) as [buf|err] eqn:E; [|discriminate].
    destruct (fetchRanges env url rest) as [res log]. cbn [fst snd] in *.
    destruct res as [bufs'|err]; [|discriminate].
    intros [= <-]. destruct (IH bufs' eq_refl) as [-> HF].
    split; [reflexivity | now constructor].
Qed.

Lemma fetchRanges_all_ok (env : Env) (url : string) (ranges : list (number * number)) :
  Forall (fun r => exists buf, fetchResult env url r = Ok buf) ranges ->
  exists bufs, fst (fetchRanges env url ranges) = Ok bufs.
Proof.
  induction 1 as [|r rest [buf Hr] _ [bufs IH]]; cbn [fetchRanges].
  - now exists [].
  - rewrite Hr. destruct (fetchRanges env url rest) as [res log].
    cbn [fst] in *. subst res. now exists (buf :: bufs).
Qed.

Lemma fetchRanges_prefix (env : Env) (url : string) (ranges : list (number * number)) :
  snd (fetchRanges env url ranges) `prefix_of` map (rangeRequest url) ranges.
Proof.
  induction ranges as [|r rest IH]; cbn [fetchRanges].
  - reflexivity.
  - destruct (fetchResult env url r).
    + destruct (fetchRanges env url rest) as [res log]. cbn [snd] in *.
      now apply prefix_cons.
    + cbn [snd map]. apply prefix_cons, prefix_nil.
Qed.

Lemma fetchResult_error (env : Env) (url : string) (r : number * number) (e : JsError) :
  fetchResult env url r = Throw e ->
  e = FetchError url \/ exists st, e = HttpError st url.
Proof.
  unfold fetchResult.
  destruct (nodeFetch env _) as [|res]; [intros [= <-]; now left|].
  destruct (ok res); [discriminate|]. intros [= <-]. right. eauto.
Qed.

Lemma fetchRanges_error (env : Env) (url : string) (ranges : list (number * number))
    (e : JsError) :
  fst (fetchRanges env url ranges) = Throw e ->
  e = FetchError url \/ exists st, e = HttpError st url.
Proof.
  induction ranges as [|r rest IH]; cbn [fetchRanges]; [discriminate|].
  destruct (fetchResult env url r) as [buf|err] eqn:E.
  - destruct (fetchRanges env url rest) as [res log]. cbn [fst] in *.
    destruct res; [discriminate|]. intros [= <-]. now apply IH.
  - cbn [fst]. intros [= <-]. eapply fetchResult_error, E.
Qed.



(** ** Assembly with a declared total length *)





(** ** Assembly from the prefetch ranges *)






Lemma prefix_of_In {A : Type} (l1 l2 : list A) (x : A) :
  l1 `prefix_of` l2 -> In x l1 -> In x l2.
Proof. intros [k ->] H. apply in_or_app. now left. Qed.

Lemma In_omap_map {A B C : Type} (f : A -> option B) (g : B -> C) (l : list A) (z : C) :
  In z (map g (omap f l)) -> exists a b, In a l /\ f a = Some b /\ z = g b.
Proof.
  intros H. apply in_map_iff in H as (b & <- & Hb).
  rewrite <- list_elem_of_In, list_elem_of_omap in Hb. destruct Hb as (a & Ha & Hf).
  apply list_elem_of_In in Ha. eauto.
Qed.

(** Exact string equality, not numeric equality, decides whether the
    prefetch range is dropped: ["00-9"] is kept next to ["0-9"]. *)
Example collectSegRanges_textual :
  collectSegRanges (mkSegmentBase (Some "0-9") (Some "10-19") (Some "00-9") [])
  = ["0-9"; "10-19"; "00-9"] /\
  collectSegRanges (mkSegmentBase (Some "0-9") (Some "10-19") (Some "0-9") [])
  = ["0-9"; "10-19"].
Proof. split; reflexivity. Qed.



(** With the first and second segment ranges identical and a different
    prefetch range, three requests follow the initialization range, two
    of them for the same range. *)
Example prefetch_ranges_first_equals_second :
  match downloadDashRepresentation range_server
          (repr_with_ranges "u" "0-9" None (Some "10-19") (Some "10-19") (Some "20-29"))
          empty_world with
  | (Ok buf, w') =>
      requests w' = [rangeRequest "u" (Num 0, Num 9); rangeRequest "u" (Num 10, Num 19);
                     rangeRequest "u" (Num 10, Num 19); rangeRequest "u" (Num 20, Num 29)]
      /\ length buf = 40%nat
  | (Throw _, _) => False
  end.
Proof. vm_compute. split; reflexivity. Qed.

(** ** Malformed byte ranges *)

(** The claim of C4 fails: with the initialization range ["abc"] and the
    first segment range ["9-"], neither of the form [<start>-<end>], the
    assembly does not fail; it requests [bytes=0-0], skips the malformed
    segment range, fetches the well-formed one and returns a buffer. *)
Lemma malformed_range_does_not_fail :
  parseByteRange "abc" = None /\ parseByteRange "9-" = None /\
  exists buf w',
    downloadDashRepresentation always_ok
      (repr_with_ranges "u" "abc" None (Some "9-") (Some "10-19") None) empty_world
    = (Ok buf, w') /\
    requests w' = [rangeRequest "u" (Num 0, Num 0); rangeRequest "u" (Num 10, Num 19)].
Proof.
  split; [reflexivity|]. split; [reflexivity|].
  eexists _, _. split; [vm_compute; reflexivity | reflexivity].
Qed.

(** C4 (amended): segment assembly never fails because a byte-range
    string is malformed.  A malformed initialization range is replaced by
    [[0, 0]], which is requested; a malformed prefetch range is skipped
    and nothing is requested for it; the order of start and end is not
    checked.  The only failures are those of a fetch (a rejected request
    or a status that is not OK): such a failure is what the caller
    receives, a buffer is returned only when every planned request
    succeeded, and when every request is answered OK the assembly
    succeeds. *)
Theorem downloadDashRepresentation_malformed_ranges
    (env : Env) (repr : DashRepresentation) (url : string)
    (segBase : DashSegmentBase) (init : DashInitialization) (w : World) :
  first (BaseURL repr) = Some url ->
  first (SegmentBase repr) = Some segBase ->
  first (Initialization segBase) = Some init ->
  exists res w' log,
    downloadDashRepresentation env repr w = (res, w') /\
    requests w' = requests w ++ log /\
    (forall e, res = Throw e -> e = FetchError url \/ exists st, e = HttpError st url) /\
    (forall buf, res = Ok buf ->
       log = map (rangeRequest url) (plannedRanges repr segBase init) /\
       Forall (fun r => exists chunk, fetchResult env url r = Ok chunk)
              (plannedRanges repr segBase init)) /\
    ((forall rq, exists resp, nodeFetch env rq = Resolves resp /\ ok resp = true) ->
       exists buf, res = Ok buf) /\
    (parseByteRange (range init) = None ->
       exists rest, log = rangeRequest url (Num 0, Num 0) :: rest) /\
    (gt (totalLenOf repr) (Num 0) = false ->
       forall rq, In rq (drop 1 log) ->
         exists sr r, In sr (collectSegRanges segBase) /\
                      parseByteRange sr = Some r /\ rq = rangeRequest url r).
Proof.
  intros Hurl Hsb Hinit.
  destruct (downloadDashRepresentation_run env repr url segBase init w Hurl Hsb Hinit)
    as (w' & Erun & Ureq & _ & _).
  pose proof (fetchRanges_prefix env url (plannedRanges repr segBase init)) as Hprefix.
  pose proof (fetchRanges_ok env url (plannedRanges repr segBase init)) as Hok.
  pose proof (fetchRanges_error env url (plannedRanges repr segBase init)) as Herr.
  pose proof (fetchRanges_all_ok env url (plannedRanges repr segBase init)) as Hall.
  destruct (fetchRanges env url (plannedRanges repr segBase init)) as [res log] eqn:Efetch.
  cbn [fst snd] in *.
  exists (result_map (@concat _) res), w', log.
  split; [exact Erun|]. split; [exact Ureq|].
  split; [|split; [|split; [|split]]].
  - intros e He. destruct res; [discriminate|]. injection He as ->. now apply Herr.
  - intros buf Hbuf. destruct res as [bufs|]; [|discriminate].
    destruct (Hok bufs eq_refl) as [-> HF]. split; [reflexivity|].
    clear -HF. induction HF; constructor; eauto.
  - intros Hnet. destruct Hall as [bufs ->]; [|eexists; reflexivity].
    apply List.Forall_forall. intros r _. unfold fetchResult.
    destruct (Hnet (mkRequest url (Some r))) as (resp & -> & ->). eauto.
  - intros Hbad. unfold plannedRanges, initRangeOf in Efetch. rewrite Hbad in Efetch.
    cbn [fetchRanges] in Efetch.
    destruct (fetchResult env url (Num 0, Num 0)).
    + destruct (fetchRanges env url _) as [res' log'].
      injection Efetch as _ <-. eauto.
    + injection Efetch as _ <-. eauto.
  - intros Hgt rq Hrq. unfold plannedRanges in Hprefix. rewrite Hgt in Hprefix.
    cbn [map] in Hprefix.
    destruct log as [|rq0 log]; [destruct Hrq|].
    apply prefix_cons_inv_2 in Hprefix. cbn [drop] in Hrq.
    apply (prefix_of_In _ _ _ Hprefix) in Hrq.
    now apply In_omap_map in Hrq.
Qed.

Lemma downloadDashRepresentation_malformed_ranges_witness :
  exists res w' log,
    downloadDashRepresentation always_ok
      (repr_with_ranges "u" "abc" None (Some "9-") (Some "10-19") None) empty_world
    = (res, w') /\
    requests w' = log /\
    (exists buf, res = Ok buf) /\
    (exists rest, log = rangeRequest "u" (Num 0, Num 0) :: rest).
Proof.
  destruct (downloadDashRepresentation_malformed_ranges always_ok
              (repr_with_ranges "u" "abc" None (Some "9-") (Some "10-19") None)
              "u" (mkSegmentBase (Some "9-") (Some "10-19") None [mkInit "abc"])
              (mkInit "abc") empty_world eq_refl eq_refl eq_refl)
    as (res & w' & log & Erun & Hreq & _ & _ & Hallok & Hinit & _).
  exists res, w', log. split; [exact Erun|]. split; [exact Hreq|]. split.
  - apply Hallok. intros rq. eexists. split; reflexivity.
  - apply Hinit. reflexivity.
Defined.

(** ** Remuxing *)

Lemma unlink_quietly_run (path : string) (w : World) :
  try_catch (unlinkSync path) (fun _ => ret tt) w
  = (Ok tt, set_fs (delete path (fs w)) w).
Proof.
  unfold try_catch, unlinkSync, ret.
  destruct (fs w !! path) eqn:E; [reflexivity|].
  rewrite (delete_id _ _ E). now destruct w.
Qed.

Lemma try_finally_cleanup {A : Type} (body : M A) (w : World) :
  try_finally body
    (let* _ := try_catch (unlinkSync temp_video) (fun _ => ret tt) in
     try_catch (unlinkSync temp_audio) (fun _ => ret tt)) w
  = (fst (body w),
     set_fs (delete temp_audio (delete temp_video (fs (snd (body w))))) (snd (body w))).
Proof.
  unfold try_finally. destruct (body w) as [r w1]. cbn [fst snd].
  unfold bind. rewrite unlink_quietly_run, unlink_quietly_run. reflexivity.
Qed.

(** [mergeDashVideoAudio] always returns normally: it writes the two
    temporary files, runs the multiplexer once, prints one line (or none)
    and removes the two temporary files. *)
Lemma mergeDashVideoAudio_run (env : Env) (videoBuf audioBuf : Buffer)
    (outPath : string) (w : World) :
  mergeDashVideoAudio env videoBuf audioBuf outPath w
  = (Ok tt,
     mkWorld
       (delete temp_audio
          (delete temp_video (files_after_ffmpeg env videoBuf audioBuf outPath w)))
       (requests w)
       (commands w ++ [outPath])
       (console w ++ merge_messages env videoBuf audioBuf outPath w)).
Proof.
  unfold mergeDashVideoAudio, merge_messages, files_after_ffmpeg, ffmpeg_exit_code.
  unfold bind at 1. cbn [writeFileSync].
  unfold bind at 1. cbn [writeFileSync].
  rewrite try_finally_cleanup.
  unfold try_catch, bind, execSync_ffmpeg, statSync, console_log, logDebug, ret.
  cbn [fs requests commands console add_command set_fs].
  fold (files_before_merge videoBuf audioBuf w).
  destruct (ffmpeg env outPath (files_before_merge videoBuf audioBuf w))
    as [exit_code files].
  cbn [fst snd].
  destruct (exit_code =? 0);
    cbn [andb fs requests commands console add_command add_console set_fs].
  - destruct (files !! outPath) as [data|] eqn:Eout.
    + rewrite bool_decide_eq_true_2 by eauto. reflexivity.
    + rewrite bool_decide_eq_false_2 by (intros [? ?]; discriminate).
      destruct (isVerbose env); cbn; now rewrite ?app_nil_r.
  - destruct (isVerbose env); cbn; now rewrite ?app_nil_r.
Qed.

(** C8: whatever the multiplexer does (success, non-zero exit, or an
    exception inside the [try] block, such as a missing output file),
    [mergeDashVideoAudio] returns and neither temporary file exists
    afterwards. *)
Theorem mergeDashVideoAudio_removes_temporaries
    (env : Env) (videoBuf audioBuf : Buffer) (outPath : string) (w : World) :
  exists w',
    mergeDashVideoAudio env videoBuf audioBuf outPath w = (Ok tt, w') /\
    files_before_merge videoBuf audioBuf w !! temp_video = Some videoBuf /\
    files_before_merge videoBuf audioBuf w !! temp_audio = Some audioBuf /\
    fs w' = delete temp_audio
              (delete temp_video (files_after_ffmpeg env videoBuf audioBuf outPath w)) /\
    fs w' !! temp_video = None /\
    fs w' !! temp_audio = None.
Proof.
  eexists. split; [apply mergeDashVideoAudio_run|]. cbn [fs].
  unfold files_before_merge.
  repeat split.
  - rewrite lookup_insert_ne by discriminate. apply lookup_insert_eq.
  - apply lookup_insert_eq.
  - rewrite lookup_delete_ne by discriminate. apply lookup_delete_eq.
  - apply lookup_delete_eq.
Qed.

(** The claim of C9 fails: when the multiplexer exits with code 1,
    [mergeDashVideoAudio] does not fail; it returns normally, as it does
    after a successful run, and prints nothing unless the verbose flag is
    set. *)
Lemma mergeDashVideoAudio_failure_is_swallowed :
  ffmpeg_exit_code failing_ffmpeg [] [] "out.mp4" empty_world = 1 /\
  exists w',
    mergeDashVideoAudio failing_ffmpeg [] [] "out.mp4" empty_world = (Ok tt, w') /\
    console w' = [].
Proof.
  split; [reflexivity|]. eexists. split; [apply mergeDashVideoAudio_run|].
  reflexivity.
Qed.

(** C9 (amended): when the multiplexer exits with a non-zero code,
    [mergeDashVideoAudio] catches the error: it returns normally, exactly
    as after a successful run, having run the multiplexer once (no
    retry); the failure is reported only as a debug line, printed when the
    verbose flag is set. *)
Theorem mergeDashVideoAudio_swallows_failure
    (env : Env) (videoBuf audioBuf : Buffer) (outPath : string) (w : World) :
  ffmpeg_exit_code env videoBuf audioBuf outPath w <> 0 ->
  exists w',
    mergeDashVideoAudio env videoBuf audioBuf outPath w = (Ok tt, w') /\
    commands w' = commands w ++ [outPath] /\
    console w' = console w ++
                 (if isVerbose env then ["[mergeDashVideoAudio] ffmpeg merge error:"]
                  else []).
Proof.
  intros Hexit. eexists. split; [apply mergeDashVideoAudio_run|].
  cbn [commands console]. split; [reflexivity|].
  unfold merge_messages. apply Z.eqb_neq in Hexit. now rewrite Hexit.
Qed.

Lemma mergeDashVideoAudio_swallows_failure_witness :
  exists w',
    mergeDashVideoAudio failing_ffmpeg [] [] "out.mp4" empty_world = (Ok tt, w') /\
    commands w' = commands empty_world ++ ["out.mp4"] /\
    console w' = console empty_world ++
                 (if isVerbose failing_ffmpeg
                  then ["[mergeDashVideoAudio] ffmpeg merge error:"] else []).
Proof.
  apply (mergeDashVideoAudio_swallows_failure failing_ffmpeg [] [] "out.mp4" empty_world).
  discriminate.
Defined.

(** ** The image of highest resolution *)

Lemma fold_widerOf (rs pre mid : list InstagramDisplayResource)
    (acc : InstagramDisplayResource) :
  Forall (fun d => config_width d < config_width acc) pre ->
  Forall (fun d => config_width d <= config_width acc) mid ->
  exists pre' best post',
    pre ++ acc :: mid ++ rs = pre' ++ best :: post' /\
    fold_left widerOf rs acc = best /\
    Forall (fun d => config_width d < config_width best) pre' /\
    Forall (fun d => config_width d <= config_width best) post'.
Proof.
  revert pre mid acc. induction rs as [|cur rs IH]; intros pre mid acc Hpre Hmid.
  - exists pre, acc, mid. rewrite app_nil_r. auto.
  - cbn [fold_left]. unfold widerOf at 2.
    destruct (Z.gtb_spec (config_width cur) (config_width acc)) as [Hgt|Hle].
    + destruct (IH (pre ++ acc :: mid) [] cur) as (pre' & best & post' & Heq & H).
      * apply Forall_app. split; [|constructor].
        -- eapply List.Forall_impl; [|exact Hpre]. simpl. intros; lia.
        -- exact Hgt.
        -- eapply List.Forall_impl; [|exact Hmid]. simpl. intros; lia.
      * constructor.
      * exists pre', best, post'. split; [|exact H].
        rewrite <- Heq. cbn [app]. now rewrite <- app_assoc.
    + destruct (IH pre (mid ++ [cur]) acc) as (pre' & best & post' & Heq & H).
      * exact Hpre.
      * apply Forall_app. split; [exact Hmid | now repeat constructor].
      * exists pre', best, post'. split; [|exact H].
        rewrite <- Heq. now rewrite <- app_assoc.
Qed.

(** [reduce] with the callback of [downloadHighestResImage] returns the
    first-listed entry among those of maximum width. *)
Lemma bestDisplayResource_first_maximum (r : InstagramDisplayResource)
    (rs : list InstagramDisplayResource) :
  exists pre best post,
    r :: rs = pre ++ best :: post /\
    bestDisplayResource (r :: rs) = Some best /\
    Forall (fun d => config_width d < config_width best) pre /\
    Forall (fun d => config_width d <= config_width best) post.
Proof.
  destruct (fold_widerOf rs [] [] r) as (pre & best & post & Heq & Hbest & H);
    [constructor | constructor |].
  exists pre, best, post. split; [exact Heq|].
  split; [|exact H]. unfold bestDisplayResource, reduce. now rewrite Hbest.
Qed.

Example bestDisplayResource_widths (a b c : InstagramDisplayResource) :
  config_width a = 150 -> config_width b = 1080 -> config_width c = 640 ->
  bestDisplayResource [a; b; c] = Some b.
Proof.
  intros Ha Hb Hc. unfold bestDisplayResource, reduce, widerOf. cbn [fold_left].
  rewrite Ha, Hb. cbn. rewrite Hb, Hc. reflexivity.
Qed.

Lemma downloadHighestResImage_run (env : Env)
    (displayResources : list InstagramDisplayResource)
    (best : InstagramDisplayResource) (folderName fileName : string) (w : World) :
  bestDisplayResource displayResources = Some best ->
  exists w',
    downloadHighestResImage env displayResources folderName fileName w
    = (image_result env best, w') /\
    requests w' = requests w ++ [mkRequest (src best) None] /\
    commands w' = commands w /\
    fs w' = files_after_image env best (path_join env folderName fileName) (fs w).
Proof.
  intros Hbest. unfold downloadHighestResImage, image_result, files_after_image.
  rewrite Hbest. unfold bind at 1. cbn [deref ret].
  unfold bind, logDebug, fetch, mkdirSync, writeFileSync, console_log, ret.
  destruct (isVerbose env);
    destruct (nodeFetch env (mkRequest (src best) None)) as [|resp]; cbn;
    try destruct (ok resp); cbn; eexists; repeat split.
Qed.

Lemma extractMediaRecursive_unfold (env : Env) (item : InstagramMediaItem)
    (folderName postName : string) :
  extractMediaRecursive env item folderName postName
  = match edge_sidecar_to_children item with
    | Some edges =>
        extractChildren (extractMediaRecursive env) folderName postName edges 0%nat 0
    | None => extractLeaf env item folderName postName 0
    end.
Proof. destruct item; reflexivity. Qed.

(** The claim of C10 fails in its last part: the image branch is not an
    alternative to the video branch.  A video item with a direct URL and
    display resources goes through both: two requests, two files, and a
    count of 2. *)
Lemma video_item_also_downloads_image :
  match extractMediaRecursive one_byte_server
          (video_item (Some "https://cdn/v.mp4") [resource "https://cdn/i.jpg" 640])
          "out" "post" empty_world with
  | (Ok count, w') =>
      count = 2 /\
      requests w' = [mkRequest "https://cdn/v.mp4" None; mkRequest "https://cdn/i.jpg" None] /\
      fs w' !! "out/post.mp4" = Some [Byte.x01] /\
      fs w' !! "out/post.jpg" = Some [Byte.x01]
  | (Throw _, _) => False
  end.
Proof. vm_compute. repeat split. Qed.

(** C10 (amended): for every item without children that has one or more
    display resources, once the video statement has run (for an item that
    is not a video it does nothing and leaves the count at 0), the entry
    of maximum width, the first-listed one on ties, is requested; when the
    request resolves the count is incremented, and the body is saved as
    [postName + ".jpg"] when the response is OK.  The image statement does
    not depend on the video statement: it also runs for a video item. *)
Theorem extractMediaRecursive_image_leaf
    (env : Env) (item : InstagramMediaItem) (folderName postName : string)
    (r : InstagramDisplayResource) (rs : list InstagramDisplayResource)
    (w w1 : World) (count : Z) :
  edge_sidecar_to_children item = None ->
  display_resources item = Some (r :: rs) ->
  extractVideo env item folderName postName 0 w = (Ok count, w1) ->
  (is_video item = false -> count = 0 /\ w1 = w) /\
  exists pre best post,
    r :: rs = pre ++ best :: post /\
    Forall (fun d => config_width d < config_width best) pre /\
    Forall (fun d => config_width d <= config_width best) post /\
    exists w',
      extractMediaRecursive env item folderName postName w
      = (match nodeFetch env (mkRequest (src best) None) with
         | Resolves _ => Ok (count + 1)
         | Rejects => Throw (FetchError (src best))
         end, w') /\
      requests w' = requests w1 ++ [mkRequest (src best) None] /\
      fs w' = match nodeFetch env (mkRequest (src best) None) with
              | Resolves resp =>
                  if ok resp
                  then <[path_join env folderName (postName ++ ".jpg")%string := body resp]> (fs w1)
                  else fs w1
              | Rejects => fs w1
              end.
Proof.
  intros Hleaf Hres Hvideo. split.
  - intros Hnv. unfold extractVideo in Hvideo. rewrite Hnv in Hvideo.
    now injection Hvideo as <- <-.
  - destruct (bestDisplayResource_first_maximum r rs)
      as (pre & best & post & Heq & Hbest & Hpre & Hpost).
    exists pre, best, post. repeat (split; [assumption|]).
    destruct (downloadHighestResImage_run env (r :: rs) best folderName
                (postName ++ ".jpg")%string w1 Hbest) as (w' & Erun & Hreq & _ & Hfs).
    exists w'. rewrite extractMediaRecursive_unfold, Hleaf.
    unfold extractLeaf. unfold bind at 1. rewrite Hvideo.
    unfold extractImage. rewrite Hres. unfold bind. rewrite Erun.
    unfold image_result, files_after_image in *.
    destruct (nodeFetch env (mkRequest (src best) None)); auto.
Qed.

Lemma extractMediaRecursive_image_leaf_witness :
  exists w',
    extractMediaRecursive one_byte_server
      (image_item [resource "a" 150; resource "b" 1080; resource "c" 640])
      "out" "post" empty_world = (Ok 1, w') /\
    requests w' = [mkRequest "b" None] /\
    fs w' = <["out/post.jpg" := [Byte.x01]]> ∅.
Proof.
  destruct (extractMediaRecursive_image_leaf one_byte_server
              (image_item [resource "a" 150; resource "b" 1080; resource "c" 640])
              "out" "post" (resource "a" 150) [resource "b" 1080; resource "c" 640]
              empty_world empty_world 0 eq_refl eq_refl eq_refl)
    as (_ & pre & best & post & Heq & Hpre & Hpost & w' & Erun & Hreq & Hfs).
  assert (Hbest : best = resource "b" 1080).
  { destruct pre as [|p0 [|p1 [|p2 pre]]]; injection Heq as <-; intros; subst.
    - apply Forall_inv in Hpost. vm_compute in Hpost. now destruct Hpost.
    - reflexivity.
    - apply Forall_inv_tail, Forall_inv in Hpre. vm_compute in Hpre. discriminate Hpre.
    - destruct pre; discriminate. }
  subst best. exists w'. split; [exact Erun|]. split; [exact Hreq | exact Hfs].
Defined.

(** ** Carousels *)

Lemma extractChildren_sum (env : Env) (folderName postName : string)
    (edges : list InstagramMediaItem) (i : nat) (downloadCount : Z)
    (w w' : World) (ns : list Z) :
  runChildren env folderName postName i edges w ns w' ->
  extractChildren (extractMediaRecursive env) folderName postName edges i downloadCount w
  = (Ok (downloadCount + sumCounts ns), w').
Proof.
  intros Hrun. revert downloadCount.
  induction Hrun as [i w|i child rest w w1 w2 n ns Hchild _ IH]; intros downloadCount.
  - cbn. now rewrite Z.add_0_r.
  - cbn [extractChildren]. unfold bind. rewrite Hchild, IH.
    cbn [sumCounts fold_right]. now rewrite Z.add_assoc.
Qed.

Lemma imageLeaf_run (env : Env) (item : InstagramMediaItem)
    (folderName postName : string) (w : World) :
  imageLeaf item ->
  (forall rq, nodeFetch env rq <> Rejects) ->
  exists w', extractMediaRecursive env item folderName postName w = (Ok 1, w').
Proof.
  intros (Hleaf & Hnv & r & rs & Hres) Hnet.
  assert (Hvideo : extractVideo env item folderName postName 0 w = (Ok 0, w)).
  { unfold extractVideo. now rewrite Hnv. }
  destruct (bestDisplayResource_first_maximum r rs) as (pre & best & post & _ & Hbest & _).
  destruct (downloadHighestResImage_run env (r :: rs) best folderName
              (postName ++ ".jpg")%string w Hbest) as (w' & Erun & _).
  exists w'. rewrite extractMediaRecursive_unfold, Hleaf.
  unfold extractLeaf. unfold bind at 1. rewrite Hvideo.
  unfold extractImage. rewrite Hres. unfold bind. rewrite Erun.
  unfold image_result. specialize (Hnet (mkRequest (src best) None)).
  destruct (nodeFetch env (mkRequest (src best) None)); [contradiction | reflexivity].
Qed.

Lemma imageLeaves_run (env : Env) (folderName postName : string)
    (edges : list InstagramMediaItem) (i : nat) (w : World) :
  Forall imageLeaf edges ->
  (forall rq, nodeFetch env rq <> Rejects) ->
  exists w', runChildren env folderName postName i edges w
               (List.repeat 1 (length edges)) w'.
Proof.
  intros Hleaves Hnet. revert i w.
  induction Hleaves as [|child rest Hchild _ IH]; intros i w.
  - exists w. constructor.
  - destruct (imageLeaf_run env child folderName (childName postName i) w Hchild Hnet)
      as (w1 & E1).
    destruct (IH (S i) w1) as (w2 & H2).
    exists w2. cbn [length List.repeat]. econstructor; eauto.
Qed.

Lemma sum_repeat_one (n : nat) : sumCounts (List.repeat 1 n) = Z.of_nat n.
Proof.
  induction n as [|n IH]; [reflexivity|].
  cbn [List.repeat].
  change (sumCounts (1 :: List.repeat 1 n)) with (1 + sumCounts (List.repeat 1 n)).
  rewrite IH. lia.
Qed.

(** The claim of C1 fails where it says that the total reflects only the
    files produced: in a carousel of two images whose first download is
    answered 404, no file is written for the first child, one file is
    written for the second, and the count returned is 2. *)
Lemma carousel_counts_failed_download :
  match extractMediaRecursive (missing_on_server "https://cdn/1.jpg") two_images
          "out" "post" empty_world with
  | (Ok count, w') =>
      count = 2 /\
      fs w' !! "out/post_1.jpg" = None /\
      fs w' = <["out/post_2.jpg" := [Byte.x01]]> ∅
  | (Throw _, _) => False
  end.
Proof. vm_compute. repeat split. Qed.

(** When the request of one child is rejected, the error leaves
    [extractMediaRecursive] at once and the later children are not
    visited. *)
Example carousel_rejected_download :
  match extractMediaRecursive (unreachable_on_server "https://cdn/1.jpg") two_images
          "out" "post" empty_world with
  | (Throw e, w') =>
      e = FetchError "https://cdn/1.jpg" /\
      requests w' = [mkRequest "https://cdn/1.jpg" None] /\
      fs w' = ∅
  | (Ok _, _) => False
  end.
Proof. vm_compute. repeat split. Qed.

(** C1 (amended): for a carousel item, [extractMediaRecursive] visits the
    children in order, the child at 0-based index [i] under the name
    [postName + "_" + (i + 1)], and, when every child returns, returns the
    sumCounts of the children's counts.  Each image leaf counts 1 as soon as its
    request resolves, also when the response is not OK and no file is
    written; so a carousel of [N] image leaves returns [N] whenever no
    request is rejected. *)
Theorem extractMediaRecursive_carousel
    (env : Env) (item : InstagramMediaItem) (folderName postName : string)
    (edges : list InstagramMediaItem) (w : World) :
  edge_sidecar_to_children item = Some edges ->
  (forall ns w',
      runChildren env folderName postName 0 edges w ns w' ->
      extractMediaRecursive env item folderName postName w = (Ok (sumCounts ns), w')) /\
  (Forall imageLeaf edges ->
   (forall rq, nodeFetch env rq <> Rejects) ->
   exists w',
     extractMediaRecursive env item folderName postName w
     = (Ok (Z.of_nat (length edges)), w')).
Proof.
  intros Hedges.
  assert (Hsum : forall ns w',
      runChildren env folderName postName 0 edges w ns w' ->
      extractMediaRecursive env item folderName postName w = (Ok (sumCounts ns), w')).
  { intros ns w' Hrun. rewrite extractMediaRecursive_unfold, Hedges.
    now rewrite (extractChildren_sum _ _ _ _ _ 0 _ _ _ Hrun). }
  split; [exact Hsum|].
  intros Hleaves Hnet.
  destruct (imageLeaves_run env folderName postName edges 0 w Hleaves Hnet) as (w' & Hrun).
  exists w'. rewrite (Hsum _ _ Hrun). now rewrite sum_repeat_one.
Qed.

Lemma extractMediaRecursive_carousel_witness :
  exists w',
    extractMediaRecursive (missing_on_server "https://cdn/1.jpg") two_images
      "out" "post" empty_world = (Ok 2, w').
Proof.
  apply (proj2 (extractMediaRecursive_carousel (missing_on_server "https://cdn/1.jpg")
                  two_images "out" "post" _ empty_world eq_refl)).
  - repeat constructor; unfold imageLeaf; cbn; eauto.
  - intros rq. cbn. destruct (String.eqb _ _); discriminate.
Defined.

Example childName_example :
  map (childName "post") [0%nat; 1%nat; 9%nat] = ["post_1"; "post_2"; "post_10"].
Proof. reflexivity. Qed.

(** * Further properties *)

(** ** Size thresholds and timeouts *)











Example parseTimeout_examples :
  map (parseTimeout None) [Some "5"; Some "30s"; Some "-5"; Some "abc"; Some EmptyString; None]
  = [Num 5000; Num 30000; Num (-5000); Num 10000; Num 10000; Num 10000] /\
  parseTimeout (Some (Num 3)) None = Num 3000.
Proof. split; reflexivity. Qed.


(** ** The output folder *)

Lemma all_safe_keep_word_chars (s : string) : all_safe (keep_word_chars s) = true.
Proof.
  induction s as [|c s IH]; [reflexivity|]. cbn [keep_word_chars].
  destruct (is_word c || Ascii.eqb c "-") eqn:E; [|exact IH].
  cbn [all_safe]. unfold safe_char. now rewrite E, IH.
Qed.

Lemma keep_word_chars_safe (s : string) : all_safe s = true -> keep_word_chars s = s.
Proof.
  induction s as [|c s IH]; [reflexivity|]. cbn [all_safe keep_word_chars].
  unfold safe_char. intros H. apply andb_prop in H as [Hc Hs].
  now rewrite Hc, (IH Hs).
Qed.

Lemma safe_char_not_slash (c : ascii) : safe_char c = true -> Ascii.eqb c "/" = false.
Proof.
  intros H. destruct (Ascii.eqb_spec c "/") as [->|]; [discriminate H | reflexivity].
Qed.

Lemma after_last_slash_safe (s : string) : all_safe s = true -> after_last_slash s = None.
Proof.
  induction s as [|c s IH]; [reflexivity|]. cbn [all_safe after_last_slash].
  intros H. apply andb_prop in H as [Hc Hs].
  now rewrite (IH Hs), (safe_char_not_slash c Hc).
Qed.

Lemma last_segment_after_slash (dir seg : string) :
  all_safe seg = true -> last_segment (dir ++ "/" ++ seg)%string = seg.
Proof.
  intros Hseg. unfold last_segment.
  assert (H : after_last_slash (dir ++ "/" ++ seg)%string = Some seg).
  { induction dir as [|c dir IH].
    - change (EmptyString ++ "/" ++ seg)%string with (String "/" seg).
      cbn [after_last_slash]. now rewrite (after_last_slash_safe seg Hseg).
    - rewrite string_app_cons. cbn [after_last_slash]. now rewrite IH. }
  now rewrite H.
Qed.

Lemma strip_trailing_slashes_safe (s seg : string) :
  seg <> EmptyString -> all_safe seg = true ->
  strip_trailing_slashes (s ++ seg)%string = (s ++ seg)%string.
Proof.
  intros Hne Hseg.
  assert (Hbase : strip_trailing_slashes seg = seg).
  { clear s. induction seg as [|c seg IH]; [congruence|].
    cbn [all_safe] in Hseg. apply andb_prop in Hseg as [Hc Hs].
    cbn [strip_trailing_slashes]. destruct seg as [|c' seg].
    - cbn. now rewrite (safe_char_not_slash c Hc).
    - rewrite IH by (auto; discriminate). reflexivity. }
  induction s as [|c s IH]; [exact Hbase|].
  rewrite string_app_cons. cbn [strip_trailing_slashes]. rewrite IH.
  destruct (s ++ seg)%string eqn:E; [|reflexivity].
  destruct s; [|discriminate E]. now destruct seg.
Qed.

Lemma strip_trailing_slashes_slashes (s : string) (n : nat) :
  strip_trailing_slashes (s ++ slashes n)%string = strip_trailing_slashes s.
Proof.
  induction s as [|c s IH].
  - change (EmptyString ++ slashes n)%string with (slashes n).
    induction n as [|n IHn]; [reflexivity|].
    cbn [slashes strip_trailing_slashes]. now rewrite IHn.
  - rewrite string_app_cons. cbn [strip_trailing_slashes]. now rewrite IH.
Qed.

Lemma string_app_assoc (a b c : string) :
  ((a ++ b) ++ c)%string = (a ++ b ++ c)%string.
Proof.
  induction a as [|x a IH]; [reflexivity|].
  now rewrite !string_app_cons, IH.
Qed.

(** X4: The folder name returned by [parseOutputFolder] is never empty and
    holds only letters, digits, underscores and dashes, whatever the URL
    and whatever its path: no slash, no dot, no space.  It is ["output"]
    when the URL cannot be parsed. *)
Theorem parseOutputFolder_safe (pathnameOf : string -> option string)
    (urlString : string) :
  parseOutputFolder pathnameOf urlString <> EmptyString /\
  all_safe (parseOutputFolder pathnameOf urlString) = true /\
  (pathnameOf urlString = None -> parseOutputFolder pathnameOf urlString = "output").
Proof.
  unfold parseOutputFolder.
  destruct (pathnameOf urlString) as [pathname|]; [|repeat split; discriminate].
  set (folder := or_else (last_segment (strip_trailing_slashes pathname)) "output").
  pose proof (all_safe_keep_word_chars folder) as Hsafe.
  destruct (keep_word_chars folder) as [|c s]; cbn [or_else].
  - repeat split; discriminate.
  - repeat split; [discriminate | exact Hsafe | discriminate].
Qed.

(** X5: When the path ends, trailing slashes apart, with a segment made of
    letters, digits, underscores and dashes, [parseOutputFolder] returns
    that segment. *)
Theorem parseOutputFolder_last_segment (pathnameOf : string -> option string)
    (urlString dir seg : string) (n : nat) :
  seg <> EmptyString -> all_safe seg = true ->
  pathnameOf urlString = Some (dir ++ "/" ++ seg ++ slashes n)%string ->
  parseOutputFolder pathnameOf urlString = seg.
Proof.
  intros Hne Hseg Hpath. unfold parseOutputFolder. rewrite Hpath.
  rewrite <- string_app_assoc. rewrite <- (string_app_assoc (dir ++ "/")).
  rewrite strip_trailing_slashes_slashes.
  rewrite strip_trailing_slashes_safe by assumption.
  rewrite string_app_assoc, last_segment_after_slash by assumption.
  destruct seg as [|c seg]; [congruence|]. cbn [or_else].
  rewrite keep_word_chars_safe by assumption. reflexivity.
Qed.

Lemma parseOutputFolder_last_segment_witness :
  parseOutputFolder (fun _ => Some "/p/ABC123/") "https://instagram.com/p/ABC123/" = "ABC123".
Proof.
  apply (parseOutputFolder_last_segment _ _ "/p" "ABC123" 1).
  - discriminate.
  - reflexivity.
  - reflexivity.
Defined.

Example parseOutputFolder_examples :
  map (fun p => parseOutputFolder (fun _ => Some p) "u")
      ["/folder"; "/test@123"; "/"; EmptyString; "/a/../"; "/%20/"]
  = ["folder"; "test123"; "output"; "output"; "output"; "20"].
Proof. reflexivity. Qed.

(** ** The arguments of [main] *)

Ltac positional_by IH :=
  match goal with
  | |- positionalArgs (parseArgsFrom ?r ?a1) = _ ++ positionalArgs (parseArgsFrom ?r ?a2) =>
      let H1 := fresh in
      let H2 := fresh in
      pose proof (IH r ltac:(cbn in *; lia) a1) as H1;
      pose proof (IH r ltac:(cbn in *; lia) a2) as H2;
      rewrite H1; first [rewrite H2 | idtac];
      cbn [positionalArgs noArgs app]; rewrite ?app_nil_r, <- ?app_assoc; reflexivity
  end.

Lemma parseArgsFrom_positional (args : list string) (acc : CliArgs) :
  positionalArgs (parseArgsFrom args acc)
  = positionalArgs acc ++ positionalArgs (parseArgs args).
Proof.
  unfold parseArgs.
  assert (H : forall n args, (length args <= n)%nat -> forall acc,
            positionalArgs (parseArgsFrom args acc)
            = positionalArgs acc ++ positionalArgs (parseArgsFrom args noArgs)).
  { clear. induction n as [|n IH]; intros args Hlen acc.
    - destruct args; [|simpl in Hlen; lia]. cbn. now rewrite app_nil_r.
    - destruct args as [|arg rest]; [cbn; now rewrite app_nil_r|].
      cbn [length] in Hlen. cbn [parseArgsFrom].
      destruct (String.eqb arg "--verbose"); [positional_by IH|].
      destruct (String.eqb arg "--timeout"), (String.eqb arg "--output"),
               (String.eqb arg "--quality"), rest as [|value rest'];
        try destruct (negb (startsWith arg "--"));
        positional_by IH. }
  apply (H (length args)). lia.
Qed.

Lemma option_name_starts_with_dashes (arg : string) :
  is_option_name arg = true -> startsWith arg "--" = true.
Proof.
  unfold is_option_name. intros H.
  apply orb_prop in H as [H|H]; [apply orb_prop in H as [H|H]|];
    apply String.eqb_eq in H; subst; reflexivity.
Qed.

(** One turn of the argument loop, as far as the positional arguments are
    concerned. *)
Lemma parseArgs_positional_step (arg : string) (rest : list string) :
  positionalArgs (parseArgs (arg :: rest))
  = if String.eqb arg "--verbose" then positionalArgs (parseArgs rest)
    else if is_option_name arg then positionalArgs (parseArgs (tl rest))
    else if startsWith arg "--" then positionalArgs (parseArgs rest)
    else arg :: positionalArgs (parseArgs rest).
Proof.
  unfold parseArgs at 1. cbn [parseArgsFrom].
  destruct (String.eqb arg "--verbose"); [now rewrite parseArgsFrom_positional|].
  pose proof (option_name_starts_with_dashes arg) as Hdash.
  unfold is_option_name in *.
  destruct (String.eqb arg "--timeout"), (String.eqb arg "--output"),
           (String.eqb arg "--quality"), rest as [|value rest'];
    cbn [orb tl] in *;
    try rewrite (Hdash eq_refl); cbn [negb];
    try destruct (startsWith arg "--"); cbn [negb];
    rewrite ?parseArgsFrom_positional; reflexivity.
Qed.

(** X6: The positional arguments found by the loop of [main] are arguments
    that do not start with two dashes, in their order; the argument that
    follows [--timeout], [--output] or [--quality] is taken as its value
    and is never positional; when none of these three options occurs, the
    positional arguments are exactly the arguments without leading
    dashes. *)
Theorem parseArgs_positional (args : list string) :
  (forall p, In p (positionalArgs (parseArgs args)) ->
             In p args /\ startsWith p "--" = false) /\
  (forall name value,
     is_option_name name = true ->
     positionalArgs (parseArgs (name :: value :: args))
     = positionalArgs (parseArgs args)) /\
  (Forall (fun arg => is_option_name arg = false) args ->
   positionalArgs (parseArgs args)
   = List.filter (fun arg => negb (startsWith arg "--")) args).
Proof.
  split; [|split].
  - assert (H : forall n args, (length args <= n)%nat ->
              forall p, In p (positionalArgs (parseArgs args)) ->
                        In p args /\ startsWith p "--" = false).
    { clear. induction n as [|n IH]; intros args Hlen p Hp.
      - destruct args; [destruct Hp | simpl in Hlen; lia].
      - destruct args as [|arg rest]; [destruct Hp|].
        cbn [length] in Hlen. rewrite parseArgs_positional_step in Hp.
        destruct (String.eqb arg "--verbose").
        { destruct (IH rest ltac:(lia) p Hp). split; [now right | assumption]. }
        destruct (is_option_name arg).
        { destruct rest as [|value rest']; [destruct Hp|]. cbn [tl] in Hp.
          cbn [length] in Hlen.
          destruct (IH rest' ltac:(lia) p Hp). split; [right; now right | assumption]. }
        destruct (startsWith arg "--") eqn:Hdash.
        { destruct (IH rest ltac:(lia) p Hp). split; [now right | assumption]. }
        destruct Hp as [<-|Hp]; [split; [now left | assumption]|].
        destruct (IH rest ltac:(lia) p Hp). split; [now right | assumption]. }
    apply (H (length args)). lia.
  - intros name value Hname. rewrite parseArgs_positional_step, Hname.
    destruct (String.eqb_spec name "--verbose") as [->|_]; [discriminate Hname|].
    reflexivity.
  - induction 1 as [|arg rest Harg _ IH]; [reflexivity|].
    rewrite parseArgs_positional_step, Harg. cbn [List.filter].
    destruct (String.eqb_spec arg "--verbose") as [->|_]; [exact IH|].
    destruct (startsWith arg "--"); cbn [negb]; now rewrite IH.
Qed.

Lemma parseArgs_positional_witness :
  positionalArgs (parseArgs ["--output"; "dir"; "https://a/b"; "video"])
  = positionalArgs (parseArgs ["https://a/b"; "video"]) /\
  positionalArgs (parseArgs ["https://a/b"; "--verbose"; "video"])
  = List.filter (fun arg => negb (startsWith arg "--")) ["https://a/b"; "--verbose"; "video"].
Proof.
  split.
  - apply (proj1 (proj2 (parseArgs_positional ["https://a/b"; "video"]))). reflexivity.
  - apply (proj2 (proj2 (parseArgs_positional ["https://a/b"; "--verbose"; "video"]))).
    repeat constructor.
Defined.

(** ** The search for an item with an owner *)

Lemma Json_induction (P : Json -> Prop) :
  P JNull -> (forall b, P (JBool b)) -> (forall z, P (JNumber z)) ->
  (forall s, P (JString s)) ->
  (forall items, Forall P items -> P (JArray items)) ->
  (forall members, Forall (fun kv => P (snd kv)) members -> P (JObject members)) ->
  forall v, P v.
Proof.
  intros Hnull Hbool Hnum Hstr Harr Hobj.
  fix IH 1.
  intros [ |b|z|s|items|members];
    [exact Hnull | apply Hbool | apply Hnum | apply Hstr | | ].
  - apply Harr. induction items as [|x items IHitems]; constructor; [apply IH | exact IHitems].
  - apply Hobj. induction members as [|[k x] members IHm]; constructor;
      [apply IH | exact IHm].
Qed.

Lemma first_found_some {A B : Type} (f : A -> option B) (l : list A) (y : B) :
  first_found f l = Some y -> exists x, In x l /\ f x = Some y.
Proof.
  induction l as [|x l IH]; [discriminate|]. cbn [first_found].
  destruct (f x) as [y'|] eqn:E.
  - intros [= <-]. exists x. split; [now left | exact E].
  - intros H. destruct (IH H) as (x' & Hin & Hx'). exists x'. split; [now right | exact Hx'].
Qed.

Lemma first_found_none {A B : Type} (f : A -> option B) (l : list A) :
  first_found f l = None -> forall x, In x l -> f x = None.
Proof.
  induction l as [|x l IH]; [intros _ x []|]. cbn [first_found].
  destruct (f x) as [y|] eqn:E; [discriminate|].
  intros H x' [<-|Hin]; [exact E | now apply IH].
Qed.

Lemma has_owner_object (v : Json) :
  has_owner v = true -> exists members, v = JObject members.
Proof. destruct v; try discriminate. eauto. Qed.

Lemma searchItemWithOwner_sound (obj it : Json) :
  searchItemWithOwner obj = Some it -> subvalue it obj /\ has_owner it = true.
Proof.
  revert it. induction obj as [ | | | |items IH|members IH] using Json_induction;
    intros it; try discriminate.
  - cbn [searchItemWithOwner]. intros H.
    apply first_found_some in H as (x & Hin & Hx).
    rewrite List.Forall_forall in IH. destruct (IH x Hin it Hx) as [Hsub Hown].
    split; [eapply subvalue_item; eauto | exact Hown].
  - cbn [searchItemWithOwner].
    destruct (has_owner (JObject members)) eqn:Hown.
    + intros [= <-]. split; [constructor | exact Hown].
    + intros H. apply first_found_some in H as ([k x] & Hin & Hx).
      rewrite List.Forall_forall in IH. destruct (IH (k, x) Hin it Hx) as [Hsub Hown'].
      split; [eapply subvalue_member; eauto | exact Hown'].
Qed.

Lemma searchItemWithOwner_complete (obj : Json) :
  searchItemWithOwner obj = None ->
  forall v, subvalue v obj -> has_owner v = false.
Proof.
  induction obj as [ | | | |items IH|members IH] using Json_induction;
    intros Hnone v Hsub.
  1-4: inversion Hsub; subst; reflexivity.
  - cbn [searchItemWithOwner] in Hnone.
    inversion Hsub as [|x items' Hin Hsubx|]; subst; [reflexivity|].
    rewrite List.Forall_forall in IH.
    apply (IH x Hin); [|exact Hsubx].
    now apply (first_found_none _ _ Hnone).
  - cbn [searchItemWithOwner] in Hnone.
    destruct (has_owner (JObject members)) eqn:Hown; [discriminate|].
    inversion Hsub as [| |k x members' Hin Hsubx]; subst; [exact Hown|].
    rewrite List.Forall_forall in IH.
    apply (IH (k, x) Hin); [|exact Hsubx].
    now apply (first_found_none _ _ Hnone (k, x)).
Qed.

(** X7: What [findJsonItemWithOwner] returns occurs in the parsed text and is
    an object whose [owner] is truthy and has a truthy [username]; an
    object that qualifies is returned itself, before anything nested in
    it. *)
Theorem findJsonItemWithOwner_sound (JSON_parse : string -> option Json)
    (jsonStr : string) (it : Json) :
  findJsonItemWithOwner JSON_parse jsonStr = Some it ->
  exists obj members,
    JSON_parse jsonStr = Some obj /\ subvalue it obj /\
    it = JObject members /\ has_owner it = true /\
    (has_owner obj = true -> it = obj).
Proof.
  unfold findJsonItemWithOwner.
  destruct (JSON_parse jsonStr) as [obj|]; [|discriminate].
  intros H. destruct (searchItemWithOwner_sound obj it H) as [Hsub Hown].
  destruct (has_owner_object it Hown) as [members ->].
  exists obj, members. repeat split; auto.
  intros Hroot. destruct (has_owner_object obj Hroot) as [ms ->].
  cbn [searchItemWithOwner] in H. rewrite Hroot in H. congruence.
Qed.

(** X8: [findJsonItemWithOwner] returns [null] only when the text does not
    parse or when no value anywhere in it, at any depth, is an object with
    a truthy [owner.username]. *)
Theorem findJsonItemWithOwner_complete (JSON_parse : string -> option Json)
    (jsonStr : string) :
  findJsonItemWithOwner JSON_parse jsonStr = None ->
  JSON_parse jsonStr = None \/
  exists obj, JSON_parse jsonStr = Some obj /\
              forall v, subvalue v obj -> has_owner v = false.
Proof.
  unfold findJsonItemWithOwner.
  destruct (JSON_parse jsonStr) as [obj|]; [|now left].
  intros H. right. exists obj. split; [reflexivity|].
  now apply searchItemWithOwner_complete.
Qed.

Lemma findJsonItemWithOwner_sound_witness :
  exists obj members,
    Some response_with_owner = Some obj /\
    subvalue (JObject [("id", JString "1"); ("owner", owner_of "alice")]) obj /\
    JObject [("id", JString "1"); ("owner", owner_of "alice")] = JObject members /\
    has_owner (JObject [("id", JString "1"); ("owner", owner_of "alice")]) = true /\
    (has_owner obj = true ->
     JObject [("id", JString "1"); ("owner", owner_of "alice")] = obj).
Proof.
  apply (findJsonItemWithOwner_sound (fun _ => Some response_with_owner) "{}").
  reflexivity.
Defined.

Lemma findJsonItemWithOwner_complete_witness :
  (fun _ : string => Some (JArray [JObject [("owner", JString "x")]])) "[]" = None \/
  exists obj,
    (fun _ : string => Some (JArray [JObject [("owner", JString "x")]])) "[]" = Some obj /\
    forall v, subvalue v obj -> has_owner v = false.
Proof.
  apply (findJsonItemWithOwner_complete
           (fun _ => Some (JArray [JObject [("owner", JString "x")]])) "[]").
  reflexivity.
Defined.

(** ** One range request *)

(** X9: [downloadRange] sends exactly one request, with a [Range] header when
    both bounds are given and without one otherwise; it returns the body
    of an OK response, fails with the status and the URL when the response
    is not OK and with the transport error when the request is rejected;
    it touches neither the files nor the multiplexer. *)
Theorem downloadRange_one_request (env : Env) (url : string)
    (start end_ : option number) (w : World) :
  exists w',
    downloadRange env (Some url) start end_ w
    = (match nodeFetch env (mkRequest url (rangeHeader start end_)) with
       | Rejects => Throw (FetchError url)
       | Resolves resp =>
           if ok resp then Ok (body resp) else Throw (HttpError (status resp) url)
       end, w') /\
    requests w' = requests w ++ [mkRequest url (rangeHeader start end_)] /\
    fs w' = fs w /\
    commands w' = commands w.
Proof.
  unfold downloadRange, deref, fetch, logDebug.
  fold (rangeHeader start end_).
  unfold bind, ret, throw, console_log.
  destruct (isVerbose env);
    destruct (nodeFetch env (mkRequest url (rangeHeader start end_))) as [|resp]; simpl;
    try destruct (ok resp); simpl; eexists; (split; [reflexivity|]); simpl; auto.
Qed.

(** ** Incomplete representations *)

(** X10: A representation without a [BaseURL], without a [SegmentBase] or
    without an [Initialization] element makes [downloadDashRepresentation]
    fail with a [TypeError] before anything is requested. *)
Theorem downloadDashRepresentation_incomplete (env : Env)
    (repr : DashRepresentation) (w : World) :
  first (BaseURL repr) = None \/
  first (SegmentBase repr) = None \/
  (exists segBase, first (SegmentBase repr) = Some segBase /\
                   first (Initialization segBase) = None) ->
  exists w',
    downloadDashRepresentation env repr w = (Throw TypeError, w') /\
    requests w' = requests w /\ fs w' = fs w /\ commands w' = commands w.
Proof.
  intros H. unfold downloadDashRepresentation.
  destruct (logDebug_run env "[downloadDashRepresentation] Representation ID=" w)
    as (w0 & E0 & R0 & F0 & C0).
  rewrite app_nil_r in R0.
  unfold bind at 1. rewrite E0.
  destruct (first (SegmentBase repr)) as [segBase|] eqn:Hsb.
  2:{ exists w0. cbn [deref]. unfold bind, throw. repeat split; congruence. }
  unfold bind at 1. cbn [deref ret].
  destruct (first (Initialization segBase)) as [init|] eqn:Hinit.
  2:{ exists w0. cbn [deref]. unfold bind, throw. repeat split; congruence. }
  destruct H as [Hurl|[Hno|(sb & Hsb' & Hno)]]; [|discriminate|congruence].
  rewrite Hurl. unfold bind at 1. cbn [deref ret].
  destruct (logDebug_run env "[downloadDashRepresentation] initRange=" w0)
    as (w1 & E1 & R1 & F1 & C1).
  rewrite app_nil_r in R1.
  unfold bind at 1. rewrite E1.
  exists w1. unfold downloadRange. cbn [deref]. unfold bind, throw.
  repeat split; congruence.
Qed.

Lemma downloadDashRepresentation_incomplete_witness :
  exists w',
    downloadDashRepresentation range_server
      (mkRepr (mkReprAttrs "r" None None None None) ["u"] []) empty_world
    = (Throw TypeError, w') /\
    requests w' = requests empty_world /\ fs w' = fs empty_world /\
    commands w' = commands empty_world.
Proof.
  apply downloadDashRepresentation_incomplete. right. left. reflexivity.
Defined.

(** ** The fallback of the adaptation-set search *)

(** One turn of the loop of the second rule. *)
Lemma sniffAdaptationSet_cons (mime codec : string)
    (x : DashAdaptationSet) (rest : list DashAdaptationSet) :
  sniffAdaptationSet mime codec (x :: rest)
  = if emptyArray x then Throw TypeError
    else if sniffs mime codec x then Ok (Some x)
    else sniffAdaptationSet mime codec rest.
Proof.
  cbn [sniffAdaptationSet]. unfold sniffs, emptyArray.
  destruct (Representation x) as [|r|[|r l]]; cbn; try reflexivity;
    destruct (truthy (mimeType (repr_attrs r)) && _); cbn; try reflexivity;
    destruct (truthy (codecs (repr_attrs r)) && _); reflexivity.
Qed.

Lemma sniffAdaptationSet_found (mime codec : string)
    (sets : list DashAdaptationSet) (a : DashAdaptationSet) :
  sniffAdaptationSet mime codec sets = Ok (Some a) ->
  In a sets /\ sniffs mime codec a = true.
Proof.
  induction sets as [|x sets IH]; [discriminate|].
  rewrite sniffAdaptationSet_cons.
  destruct (emptyArray x); [discriminate|].
  destruct (sniffs mime codec x) eqn:E.
  - intros [= <-]. split; [now left | exact E].
  - intros H. destruct (IH H). split; [now right | assumption].
Qed.

Lemma sniffAdaptationSet_skip (mime codec : string)
    (pre rest : list DashAdaptationSet) :
  Forall (fun x => sniffs mime codec x = false /\ emptyArray x = false) pre ->
  sniffAdaptationSet mime codec (pre ++ rest) = sniffAdaptationSet mime codec rest.
Proof.
  induction 1 as [|x pre [Hx Hne] _ IH]; [reflexivity|].
  cbn [app]. now rewrite sniffAdaptationSet_cons, Hx, Hne.
Qed.

Lemma find_none_app {A : Type} (f : A -> bool) (l : list A) :
  find f l = None <-> Forall (fun x => f x = false) l.
Proof.
  induction l as [|x l IH]; cbn [find].
  - split; [constructor | reflexivity].
  - destruct (f x) eqn:E; split.
    + discriminate.
    + intros H. apply Forall_inv in H. congruence.
    + intros H. constructor; [exact E | now apply IH].
    + intros H. apply IH. now apply Forall_inv_tail in H.
Qed.

(** The three theorems that follow are stated for the common body of
    [findVideoAdaptationSet] ([kind], [mime], [codec] are ["video"],
    ["video"], ["avc1"]) and of [findAudioAdaptationSet] (["audio"],
    ["audio"], ["mp4a"]). *)

(** X11: A set returned by the search is one of the sets given, and it matches
    one of the two rules: its [contentType] is the kind looked for, or its
    first representation has the expected [mimeType] or [codecs]. *)
Theorem findAdaptationSet_justified (kind mime codec : string)
    (sets : list DashAdaptationSet) (a : DashAdaptationSet) :
  findAdaptationSet kind mime codec sets = Ok (Some a) ->
  In a sets /\ (hasContentType kind a = true \/ sniffs mime codec a = true).
Proof.
  unfold findAdaptationSet.
  destruct (find (hasContentType kind) sets) as [direct|] eqn:E.
  - intros [= <-]. apply find_some in E as [Hin Htag]. auto.
  - intros H. apply sniffAdaptationSet_found in H as [Hin Hsniff]. auto.
Qed.

Lemma findAdaptationSet_justified_witness :
  In video_set_by_codec [audio_set_by_mime; video_set_by_codec] /\
  (hasContentType "video" video_set_by_codec = true \/
   sniffs "video" "avc1" video_set_by_codec = true).
Proof.
  apply (findAdaptationSet_justified "video" "video" "avc1"
           [audio_set_by_mime; video_set_by_codec] video_set_by_codec).
  reflexivity.
Defined.

(** X12: The first set whose [contentType] is the kind looked for is returned,
    whatever the sets listed before it hold: a set matched by its codec, or
    one with an empty array of representations, does not get in the way. *)
Theorem findAdaptationSet_tag_first (kind mime codec : string)
    (pre post : list DashAdaptationSet) (a : DashAdaptationSet) :
  Forall (fun x => hasContentType kind x = false) pre ->
  hasContentType kind a = true ->
  findAdaptationSet kind mime codec (pre ++ a :: post) = Ok (Some a).
Proof.
  intros Hpre Ha. unfold findAdaptationSet.
  assert (H : find (hasContentType kind) (pre ++ a :: post) = Some a).
  { induction Hpre as [|x pre Hx _ IH]; cbn [app find]; [now rewrite Ha|].
    now rewrite Hx. }
  now rewrite H.
Qed.

Lemma findAdaptationSet_tag_first_witness :
  findVideoAdaptationSet
    [video_set_by_codec; mkAdaptationSet None (RepArray []); set_tagged (Some "VIDEO")]
  = Ok (Some (set_tagged (Some "VIDEO"))).
Proof.
  apply (findAdaptationSet_tag_first "video" "video" "avc1"
           [video_set_by_codec; mkAdaptationSet None (RepArray [])] []).
  - repeat constructor.
  - reflexivity.
Defined.

(** X13: When no set carries the [contentType] looked for, the sets are
    inspected in order: the first one whose first representation has the
    expected [mimeType] or [codecs] is returned; sets without a
    [Representation] are passed over; a set whose array of representations
    is empty, when reached, makes the search fail with a [TypeError]; and
    when the list is exhausted (in particular when it is empty) the result
    is [null]. *)
Theorem findAdaptationSet_fallback (kind mime codec : string)
    (pre : list DashAdaptationSet) :
  Forall (fun x => hasContentType kind x = false) pre ->
  Forall (fun x => sniffs mime codec x = false /\ emptyArray x = false) pre ->
  findAdaptationSet kind mime codec pre = Ok None /\
  (forall a post,
     Forall (fun x => hasContentType kind x = false) (a :: post) ->
     (sniffs mime codec a = true ->
      findAdaptationSet kind mime codec (pre ++ a :: post) = Ok (Some a)) /\
     (emptyArray a = true ->
      findAdaptationSet kind mime codec (pre ++ a :: post) = Throw TypeError)).
Proof.
  intros Htag Hpre. split.
  - unfold findAdaptationSet.
    rewrite (proj2 (find_none_app _ _) Htag).
    rewrite <- (app_nil_r pre), sniffAdaptationSet_skip by exact Hpre. reflexivity.
  - intros a post Hrest. unfold findAdaptationSet.
    assert (Hnone : find (hasContentType kind) (pre ++ a :: post) = None).
    { apply find_none_app, Forall_app. auto. }
    rewrite Hnone, sniffAdaptationSet_skip by exact Hpre.
    rewrite sniffAdaptationSet_cons.
    split; intros H.
    + rewrite H. destruct (emptyArray a) eqn:E; [|reflexivity].
      unfold sniffs, emptyArray in *. destruct (Representation a) as [|r|[|r l]];
        discriminate.
    + now rewrite H.
Qed.

Lemma findAdaptationSet_fallback_witness :
  findAudioAdaptationSet [set_tagged None; video_set_by_codec] = Ok None /\
  findAudioAdaptationSet [set_tagged None; video_set_by_codec; audio_set_by_mime]
  = Ok (Some audio_set_by_mime).
Proof.
  destruct (findAdaptationSet_fallback "audio" "audio" "mp4a"
              [set_tagged None; video_set_by_codec]) as [Hnone Hnext].
  - repeat constructor.
  - repeat constructor.
  - split; [exact Hnone|].
    apply (Hnext audio_set_by_mime []); [repeat constructor | reflexivity].
Defined.

(** ** The best-quality download as a whole *)

Lemma bind_ok {A B : Type} (m : M A) (k : A -> M B) (w w1 : World) (a : A) :
  m w = (Ok a, w1) -> bind m k w = k a w1.
Proof. intros H. unfold bind. now rewrite H. Qed.

Lemma bind_throw {A B : Type} (m : M A) (k : A -> M B) (w w1 : World) (e : JsError) :
  m w = (Throw e, w1) -> bind m k w = (Throw e, w1).
Proof. intros H. unfold bind. now rewrite H. Qed.

Lemma unchanged_same (w w' : World) :
  unchanged_but_requests [] w w' ->
  requests w' = requests w /\ fs w' = fs w /\ commands w' = commands w.
Proof. intros (R & F & C). rewrite app_nil_r in R. auto. Qed.

Lemma files_after_ffmpeg_same_files (env : Env) (videoBuf audioBuf : Buffer)
    (outPath : string) (w w' : World) :
  fs w' = fs w ->
  files_after_ffmpeg env videoBuf audioBuf outPath w'
  = files_after_ffmpeg env videoBuf audioBuf outPath w.
Proof.
  intros H. unfold files_after_ffmpeg, files_before_merge. now rewrite H.
Qed.

(** The run of [downloadBestQualityDash] once the two representations are
    chosen: the two assemblies, then the merge. *)
Lemma downloadBestQualityDash_selected (env : Env)
    (mpdXml folderName postName : string) (bestVideo bestAudio : DashRepresentation)
    (w : World) :
  selects env mpdXml bestVideo bestAudio ->
  exists w0,
    unchanged_but_requests [] w w0 /\
    downloadBestQualityDash env mpdXml folderName postName w
    = (let* videoBuf := downloadDashRepresentation env bestVideo in
       let* audioBuf := downloadDashRepresentation env bestAudio in
       let finalPath := path_join env folderName (postName ++ ".mp4")%string in
       let* _ := mergeDashVideoAudio env videoBuf audioBuf finalPath in
       console_log "Saved file =>") w0.
Proof.
  intros (mpd & period & sets & videoSet & audioSet
          & Hparse & Hperiod & Hsets & Hvideo & Haudio & Hbv & Hba).
  unfold downloadBestQualityDash.
  destruct (logDebug_run env "[downloadBestQualityDash] Parsing MPD XML" w)
    as (w0 & E0 & U0).
  rewrite (bind_ok _ _ _ _ _ E0). rewrite Hparse.
  unfold bind at 1. cbn [ret]. rewrite Hperiod.
  unfold bind at 1. cbn [deref ret]. rewrite Hsets, Hvideo, Haudio.
  unfold bind at 1. cbn [lift]. unfold bind at 1. cbn [lift].
  rewrite Hbv, Hba.
  unfold bind at 1. cbn [deref ret].
  unfold bind at 1. cbn [console_log].
  unfold bind at 1. cbn [deref ret].
  unfold bind at 1. cbn [console_log].
  eexists. split; [|reflexivity].
  unfold unchanged_but_requests in *. cbn. exact U0.
Qed.

(** X14: When both assemblies succeed, [downloadBestQualityDash] requests the
    ranges of the best video representation, then those of the best audio
    representation, runs the multiplexer once on the two assembled
    streams with the output path [folderName/postName.mp4], removes the
    two temporary files and returns. *)
Theorem downloadBestQualityDash_success (env : Env)
    (mpdXml folderName postName : string)
    (bestVideo bestAudio : DashRepresentation)
    (videoURL audioURL : string) (videoBase audioBase : DashSegmentBase)
    (videoInit audioInit : DashInitialization)
    (videoChunks audioChunks : list Buffer) (w : World) :
  selects env mpdXml bestVideo bestAudio ->
  fetchable bestVideo videoURL videoBase videoInit ->
  fetchable bestAudio audioURL audioBase audioInit ->
  fst (assembly env bestVideo videoURL videoBase videoInit) = Ok videoChunks ->
  fst (assembly env bestAudio audioURL audioBase audioInit) = Ok audioChunks ->
  let finalPath := path_join env folderName (postName ++ ".mp4")%string in
  exists w',
    downloadBestQualityDash env mpdXml folderName postName w = (Ok tt, w') /\
    requests w' = requests w
                  ++ map (rangeRequest videoURL) (plannedRanges bestVideo videoBase videoInit)
                  ++ map (rangeRequest audioURL) (plannedRanges bestAudio audioBase audioInit) /\
    commands w' = commands w ++ [finalPath] /\
    fs w' = delete temp_audio
              (delete temp_video
                 (files_after_ffmpeg env (concat videoChunks) (concat audioChunks)
                    finalPath w)).
Proof.
  intros Hsel (Vu & Vs & Vi) (Au & As & Ai) Hv Ha finalPath.
  destruct (downloadBestQualityDash_selected env mpdXml folderName postName
              bestVideo bestAudio w Hsel) as (w0 & U0 & ->).
  apply unchanged_same in U0 as (R0 & F0 & C0).
  destruct (downloadDashRepresentation_run env bestVideo videoURL videoBase videoInit
              w0 Vu Vs Vi) as (w1 & E1 & R1 & F1 & C1).
  destruct (downloadDashRepresentation_run env bestAudio audioURL audioBase audioInit
              w1 Au As Ai) as (w2 & E2 & R2 & F2 & C2).
  unfold assembly in Hv, Ha.
  destruct (fetchRanges_ok _ _ _ _ Hv) as [Lv _].
  destruct (fetchRanges_ok _ _ _ _ Ha) as [La _].
  rewrite Hv in E1. rewrite Ha in E2. rewrite Lv in R1. rewrite La in R2.
  cbn [result_map] in E1, E2.
  rewrite (bind_ok _ _ _ _ _ E1), (bind_ok _ _ _ _ _ E2).
  cbv zeta. fold finalPath.
  rewrite (bind_ok _ _ _ _ _ (mergeDashVideoAudio_run env _ _ finalPath w2)).
  cbn [console_log]. eexists. split; [reflexivity|].
  cbn [requests commands fs add_console].
  split; [|split].
  - rewrite R2, R1, R0. now rewrite <- app_assoc.
  - now rewrite C2, C1, C0.
  - f_equal. f_equal. apply files_after_ffmpeg_same_files. congruence.
Qed.

(** X15: When an assembly fails, [downloadBestQualityDash] fails with the same
    error.  If it is the video assembly, nothing is requested for the
    audio; in both cases the multiplexer is not run and no file, temporary
    or final, is written. *)
Theorem downloadBestQualityDash_fetch_failure (env : Env)
    (mpdXml folderName postName : string)
    (bestVideo bestAudio : DashRepresentation)
    (videoURL audioURL : string) (videoBase audioBase : DashSegmentBase)
    (videoInit audioInit : DashInitialization) (e : JsError) (w : World) :
  selects env mpdXml bestVideo bestAudio ->
  fetchable bestVideo videoURL videoBase videoInit ->
  fetchable bestAudio audioURL audioBase audioInit ->
  (fst (assembly env bestVideo videoURL videoBase videoInit) = Throw e ->
   exists w',
     downloadBestQualityDash env mpdXml folderName postName w = (Throw e, w') /\
     requests w' = requests w ++ snd (assembly env bestVideo videoURL videoBase videoInit) /\
     commands w' = commands w /\ fs w' = fs w) /\
  (forall videoChunks,
   fst (assembly env bestVideo videoURL videoBase videoInit) = Ok videoChunks ->
   fst (assembly env bestAudio audioURL audioBase audioInit) = Throw e ->
   exists w',
     downloadBestQualityDash env mpdXml folderName postName w = (Throw e, w') /\
     requests w' = requests w
                   ++ snd (assembly env bestVideo videoURL videoBase videoInit)
                   ++ snd (assembly env bestAudio audioURL audioBase audioInit) /\
     commands w' = commands w /\ fs w' = fs w).
Proof.
  intros Hsel (Vu & Vs & Vi) (Au & As & Ai).
  destruct (downloadBestQualityDash_selected env mpdXml folderName postName
              bestVideo bestAudio w Hsel) as (w0 & U0 & ->).
  apply unchanged_same in U0 as (R0 & F0 & C0).
  destruct (downloadDashRepresentation_run env bestVideo videoURL videoBase videoInit
              w0 Vu Vs Vi) as (w1 & E1 & R1 & F1 & C1).
  destruct (downloadDashRepresentation_run env bestAudio audioURL audioBase audioInit
              w1 Au As Ai) as (w2 & E2 & R2 & F2 & C2).
  unfold assembly. split.
  - intros Hv. rewrite Hv in E1. cbn [result_map] in E1.
    rewrite (bind_throw _ _ _ _ _ E1). exists w1.
    repeat split; congruence.
  - intros videoChunks Hv Ha. rewrite Hv in E1. rewrite Ha in E2.
    cbn [result_map] in E1, E2.
    rewrite (bind_ok _ _ _ _ _ E1), (bind_throw _ _ _ _ _ E2). exists w2.
    split; [reflexivity|]. split; [|split; congruence].
    rewrite R2, R1, R0. now rewrite <- app_assoc.
Qed.

(** X16: When the manifest cannot be parsed, [downloadBestQualityDash] fails;
    when it parses but holds no array of adaptation sets, or no video set,
    or no audio set, it returns normally.  In all these cases nothing is
    requested, nothing is written and the multiplexer is not run. *)
Theorem downloadBestQualityDash_nothing_to_download (env : Env)
    (mpdXml folderName postName : string) (w : World) :
  (parseStringPromise env mpdXml = None ->
   exists w',
     downloadBestQualityDash env mpdXml folderName postName w = (Throw XmlError, w') /\
     requests w' = requests w /\ fs w' = fs w /\ commands w' = commands w) /\
  (forall mpd period,
     parseStringPromise env mpdXml = Some mpd ->
     first (Period mpd) = Some period ->
     AdaptationSet period = None \/
     (exists sets videoSet audioSet,
        AdaptationSet period = Some sets /\
        findVideoAdaptationSet sets = Ok videoSet /\
        findAudioAdaptationSet sets = Ok audioSet /\
        (videoSet = None \/ audioSet = None)) ->
     exists w',
       downloadBestQualityDash env mpdXml folderName postName w = (Ok tt, w') /\
       requests w' = requests w /\ fs w' = fs w /\ commands w' = commands w).
Proof.
  destruct (logDebug_run env "[downloadBestQualityDash] Parsing MPD XML" w)
    as (w0 & E0 & U0).
  apply unchanged_same in U0 as (R0 & F0 & C0).
  split.
  - intros Hparse. unfold downloadBestQualityDash.
    rewrite (bind_ok _ _ _ _ _ E0). rewrite Hparse.
    unfold bind, throw. exists w0. auto.
  - intros mpd period Hparse Hperiod Hcase. unfold downloadBestQualityDash.
    rewrite (bind_ok _ _ _ _ _ E0). rewrite Hparse.
    unfold bind at 1. cbn [ret]. rewrite Hperiod.
    unfold bind at 1. cbn [deref ret].
    assert (Hlog : forall msg, exists w',
               logDebug env msg w0 = (Ok tt, w') /\
               requests w' = requests w /\ fs w' = fs w /\ commands w' = commands w).
    { intros msg. destruct (logDebug_run env msg w0) as (w1 & E1 & U1).
      apply unchanged_same in U1 as (R1 & F1 & C1).
      exists w1. repeat split; congruence. }
    destruct Hcase as [-> | (sets & videoSet & audioSet & -> & Hv & Ha & Hnone)];
      [apply Hlog|].
    rewrite Hv, Ha. unfold bind at 1. cbn [lift]. unfold bind at 1. cbn [lift].
    destruct videoSet as [videoSet|]; [|apply Hlog].
    destruct audioSet as [audioSet|]; [|apply Hlog].
    destruct Hnone; discriminate.
Qed.

Lemma sample_selects (broken : list string) :
  selects (manifest_server (Some sample_mpd) broken) "<MPD/>"
    (sample_repr "v2" "v" "500000" "0-99" "1000")
    (sample_repr "a1" "a" "128000" "0-49" "500").
Proof.
  eexists _, _, _, _, _. repeat split; reflexivity.
Qed.

Lemma downloadBestQualityDash_success_witness :
  exists w',
    downloadBestQualityDash (manifest_server (Some sample_mpd) []) "<MPD/>" "out" "post"
      empty_world = (Ok tt, w') /\
    requests w' = [rangeRequest "v" (Num 0, Num 99); rangeRequest "v" (Num 100, Num 999);
                   rangeRequest "a" (Num 0, Num 49); rangeRequest "a" (Num 50, Num 499)] /\
    commands w' = ["out/post.mp4"] /\
    fs w' = <["out/post.mp4" := zeros 1500]> ∅.
Proof.
  destruct (downloadBestQualityDash_success (manifest_server (Some sample_mpd) [])
              "<MPD/>" "out" "post"
              (sample_repr "v2" "v" "500000" "0-99" "1000")
              (sample_repr "a1" "a" "128000" "0-49" "500")
              "v" "a"
              (mkSegmentBase None None None [mkInit "0-99"])
              (mkSegmentBase None None None [mkInit "0-49"])
              (mkInit "0-99") (mkInit "0-49")
              [zeros 100; zeros 900] [zeros 50; zeros 450] empty_world
              (sample_selects [])
              (conj eq_refl (conj eq_refl eq_refl))
              (conj eq_refl (conj eq_refl eq_refl))
              eq_refl eq_refl)
    as (w' & Erun & Hreq & Hcmd & Hfs).
  exists w'. split; [exact Erun|]. split; [exact Hreq|]. split; [exact Hcmd|].
  rewrite Hfs. vm_compute. reflexivity.
Defined.

Lemma downloadBestQualityDash_fetch_failure_witness :
  exists w',
    downloadBestQualityDash (manifest_server (Some sample_mpd) ["v"]) "<MPD/>" "out" "post"
      empty_world = (Throw (HttpError 404 "v"), w') /\
    requests w' = [rangeRequest "v" (Num 0, Num 99)] /\
    commands w' = [] /\ fs w' = ∅.
Proof.
  destruct (downloadBestQualityDash_fetch_failure (manifest_server (Some sample_mpd) ["v"])
              "<MPD/>" "out" "post"
              (sample_repr "v2" "v" "500000" "0-99" "1000")
              (sample_repr "a1" "a" "128000" "0-49" "500")
              "v" "a"
              (mkSegmentBase None None None [mkInit "0-99"])
              (mkSegmentBase None None None [mkInit "0-49"])
              (mkInit "0-99") (mkInit "0-49")
              (HttpError 404 "v") empty_world
              (sample_selects ["v"])
              (conj eq_refl (conj eq_refl eq_refl))
              (conj eq_refl (conj eq_refl eq_refl)))
    as [Hvideo _].
  destruct (Hvideo eq_refl) as (w' & Erun & Hreq & Hcmd & Hfs).
  exists w'. auto.
Defined.

Lemma downloadBestQualityDash_nothing_to_download_witness :
  (exists w',
     downloadBestQualityDash (manifest_server None []) "<MPD" "out" "post" empty_world
     = (Throw XmlError, w') /\
     requests w' = [] /\ fs w' = ∅ /\ commands w' = []) /\
  (exists w',
     downloadBestQualityDash
       (manifest_server (Some (mkMPD [mkPeriod (Some [set_tagged (Some "video")])])) [])
       "<MPD/>" "out" "post" empty_world
     = (Ok tt, w') /\
     requests w' = [] /\ fs w' = ∅ /\ commands w' = []).
Proof.
  split.
  - apply (proj1 (downloadBestQualityDash_nothing_to_download
                    (manifest_server None []) "<MPD" "out" "post" empty_world)).
    reflexivity.
  - apply (proj2 (downloadBestQualityDash_nothing_to_download
                    (manifest_server (Some (mkMPD [mkPeriod (Some [set_tagged (Some "video")])])) [])
                    "<MPD/>" "out" "post" empty_world)
             (mkMPD [mkPeriod (Some [set_tagged (Some "video")])])
             (mkPeriod (Some [set_tagged (Some "video")])) eq_refl eq_refl).
    right. exists [set_tagged (Some "video")], (Some (set_tagged (Some "video"))), None.
    repeat split; auto.
Defined.

(** ** Videos without a manifest *)

(** X17: For a video without a manifest but with a direct URL, the video
    statement of [extractMediaRecursive] sends one request for that URL
    and never fails: when the request resolves, the body is saved as
    [postName + ".mp4"] and counted, whatever the status of the response;
    when it is rejected, nothing is saved and the count is unchanged. *)
Theorem extractVideo_direct_url (env : Env) (item : InstagramMediaItem)
    (folderName postName : string) (count : Z) (w : World) :
  is_video item = true -> hasManifest item = false ->
  truthy (video_url item) = true ->
  exists w',
    extractVideo env item folderName postName count w
    = (Ok match nodeFetch env (mkRequest (the_string (video_url item)) None) with
          | Resolves _ => count + 1
          | Rejects => count
          end, w') /\
    requests w' = requests w ++ [mkRequest (the_string (video_url item)) None] /\
    commands w' = commands w /\
    fs w' = match nodeFetch env (mkRequest (the_string (video_url item)) None) with
            | Resolves resp =>
                <[path_join env folderName (postName ++ ".mp4")%string := body resp]> (fs w)
            | Rejects => fs w
            end.
Proof.
  intros Hvideo Hman Hurl. unfold extractVideo, hasManifest in *.
  rewrite Hvideo, Hurl.
  assert (Hrun : exists w',
    (let* _ := console_log "[extractMediaRecursive] is_video => using direct video_url:" in
     try_catch
       (let fileName := (postName ++ ".mp4")%string in
        let filePath := path_join env folderName fileName in
        let* resp := fetch env (mkRequest (the_string (video_url item)) None) in
        let buffer := body resp in
        let* _ := mkdirSync folderName in
        let* _ := writeFileSync filePath buffer in
        let* _ := console_log "Saved file =>" in
        ret (count + 1))
       (fun error =>
        let* _ := console_log "Failed to download video from direct URL:" in
        ret count)) w
    = (Ok match nodeFetch env (mkRequest (the_string (video_url item)) None) with
          | Resolves _ => count + 1
          | Rejects => count
          end, w') /\
    requests w' = requests w ++ [mkRequest (the_string (video_url item)) None] /\
    commands w' = commands w /\
    fs w' = match nodeFetch env (mkRequest (the_string (video_url item)) None) with
            | Resolves resp =>
                <[path_join env folderName (postName ++ ".mp4")%string := body resp]> (fs w)
            | Rejects => fs w
            end).
  { unfold bind, try_catch, fetch, mkdirSync, writeFileSync, console_log, ret.
    destruct (nodeFetch env (mkRequest (the_string (video_url item)) None));
      cbn; eexists; repeat split. }
  destruct (dash_info item) as [[[|c m]]|]; [exact Hrun | discriminate Hman | exact Hrun].
Qed.

Lemma extractVideo_direct_url_witness :
  exists w',
    extractVideo (missing_on_server "https://cdn/v.mp4")
      (video_item (Some "https://cdn/v.mp4") []) "out" "post" 0 empty_world
    = (Ok 1, w') /\
    requests w' = [mkRequest "https://cdn/v.mp4" None] /\
    commands w' = [] /\
    fs w' = <["out/post.mp4" := []]> ∅.
Proof.
  apply (extractVideo_direct_url (missing_on_server "https://cdn/v.mp4")
           (video_item (Some "https://cdn/v.mp4") []) "out" "post" 0 empty_world);
    reflexivity.
Defined.

(** X18: An item without children that has no manifest, no direct URL and no
    display resource yields 0: nothing is requested, written or run,
    whether it is marked as a video or not. *)
Theorem extractMediaRecursive_nothing_available (env : Env)
    (item : InstagramMediaItem) (folderName postName : string) (w : World) :
  edge_sidecar_to_children item = None ->
  hasManifest item = false -> truthy (video_url item) = false ->
  hasDisplayResources item = false ->
  exists w',
    extractMediaRecursive env item folderName postName w = (Ok 0, w') /\
    requests w' = requests w /\ fs w' = fs w /\ commands w' = commands w.
Proof.
  intros Hleaf Hman Hurl Hres.
  rewrite extractMediaRecursive_unfold, Hleaf.
  unfold extractLeaf, extractVideo, extractImage, hasManifest, hasDisplayResources in *.
  rewrite Hurl.
  assert (Himage : forall w1,
            (match display_resources item with
             | Some (r :: rs) =>
                 let fileName := (postName ++ ".jpg")%string in
                 let* _ := downloadHighestResImage env (r :: rs) folderName fileName in
                 ret (0 + 1)
             | _ => ret 0
             end) w1 = (Ok 0, w1)).
  { intros w1. destruct (display_resources item) as [[|r rs]|];
      [reflexivity | discriminate Hres | reflexivity]. }
  destruct (is_video item).
  - destruct (dash_info item) as [[[|c m]]|]; try discriminate Hman;
      unfold bind at 1; unfold bind at 1; cbn [console_log ret];
      unfold bind; rewrite Himage; eexists; repeat split.
  - unfold bind at 1. cbn [ret]. unfold bind. rewrite Himage. eexists; repeat split.
Qed.

Lemma extractMediaRecursive_nothing_available_witness :
  exists w',
    extractMediaRecursive always_ok (video_item None []) "out" "post" empty_world
    = (Ok 0, w') /\
    requests w' = [] /\ fs w' = ∅ /\ commands w' = [].
Proof.
  apply (extractMediaRecursive_nothing_available always_ok (video_item None [])
           "out" "post" empty_world); reflexivity.
Defined.

(** ** Bounds on the count *)

Lemma InstagramMediaItem_induction (P : InstagramMediaItem -> Prop) :
  (forall item,
     match edge_sidecar_to_children item with
     | Some edges => Forall P edges
     | None => True
     end -> P item) ->
  forall item, P item.
Proof.
  intros H. fix IH 1. intros item. apply H.
  destruct item as [resources url dash video [edges|]]; cbn; [|exact I].
  induction edges as [|child edges IHedges]; constructor; [apply IH | exact IHedges].
Qed.

Lemma leaves_unfold (item : InstagramMediaItem) :
  leaves item
  = match edge_sidecar_to_children item with
    | Some edges => fold_right (fun child n => leaves child + n) 0 edges
    | None => 1
    end.
Proof. destruct item; reflexivity. Qed.

Lemma extractVideo_count (env : Env) (item : InstagramMediaItem)
    (folderName postName : string) (count n : Z) (w w' : World) :
  extractVideo env item folderName postName count w = (Ok n, w') ->
  count <= n <= count + 1.
Proof.
  unfold extractVideo.
  assert (Hdirect : forall m : M Z,
            (m = (let* _ := console_log "[extractMediaRecursive] is_video => using direct video_url:" in
                  try_catch
                    (let fileName := (postName ++ ".mp4")%string in
                     let filePath := path_join env folderName fileName in
                     let* resp := fetch env (mkRequest (the_string (video_url item)) None) in
                     let buffer := body resp in
                     let* _ := mkdirSync folderName in
                     let* _ := writeFileSync filePath buffer in
                     let* _ := console_log "Saved file =>" in
                     ret (count + 1))
                    (fun error =>
                     let* _ := console_log "Failed to download video from direct URL:" in
                     ret count))
             \/ m = (let* _ := console_log "[extractMediaRecursive] is_video => but no dash_info or video_url available." in
                     ret count)) ->
            m w = (Ok n, w') -> count <= n <= count + 1).
  { intros m [-> | ->];
      unfold bind, try_catch, fetch, mkdirSync, writeFileSync, console_log, ret.
    - destruct (nodeFetch env _); cbn; intros [= <- _]; lia.
    - intros [= <- _]; lia. }
  destruct (is_video item); [|intros [= <- _]; lia].
  destruct (dash_info item) as [[[|c m]]|].
  - destruct (truthy (video_url item)); apply Hdirect; auto.
  - unfold bind at 1. cbn [console_log]. unfold bind.
    destruct (downloadBestQualityDash env (String c m) folderName postName _) as [[[]|e] w1];
      [|discriminate]. cbn [ret]. intros [= <- _]. lia.
  - destruct (truthy (video_url item)); apply Hdirect; auto.
Qed.

Lemma extractImage_count (env : Env) (item : InstagramMediaItem)
    (folderName postName : string) (count n : Z) (w w' : World) :
  extractImage env item folderName postName count w = (Ok n, w') ->
  count <= n <= count + 1.
Proof.
  unfold extractImage.
  destruct (display_resources item) as [[|r rs]|]; try (intros [= <- _]; lia).
  unfold bind.
  destruct (downloadHighestResImage env (r :: rs) folderName _ w) as [[[]|e] w1];
    [|discriminate]. cbn [ret]. intros [= <- _]. lia.
Qed.

Lemma extractChildren_count (recurse : InstagramMediaItem -> string -> string -> M Z)
    (folderName postName : string) (edges : list InstagramMediaItem) :
  Forall (fun child => forall name w n w',
            recurse child folderName name w = (Ok n, w') ->
            0 <= n <= 2 * leaves child) edges ->
  forall i count w n w',
    extractChildren recurse folderName postName edges i count w = (Ok n, w') ->
    count <= n <= count + 2 * fold_right (fun child n => leaves child + n) 0 edges.
Proof.
  induction 1 as [|child rest Hchild _ IH]; intros i count w n w'.
  - cbn. intros [= <- _]. lia.
  - cbn [extractChildren fold_right]. unfold bind.
    destruct (recurse child folderName (childName postName i) w) as [[m|e] w1] eqn:E;
      [|discriminate].
    intros Hrest. apply IH in Hrest. apply Hchild in E. lia.
Qed.

(** X19: The count returned by [extractMediaRecursive] is never negative and
    never exceeds twice the number of items without children in the tree:
    each of them contributes at most one video and one image. *)
Theorem extractMediaRecursive_count_bounds (env : Env) (item : InstagramMediaItem)
    (folderName postName : string) (w w' : World) (n : Z) :
  extractMediaRecursive env item folderName postName w = (Ok n, w') ->
  0 <= n <= 2 * leaves item.
Proof.
  revert folderName postName w w' n.
  induction item as [item IH] using InstagramMediaItem_induction.
  intros folderName postName w w' n.
  rewrite extractMediaRecursive_unfold, leaves_unfold.
  destruct (edge_sidecar_to_children item) as [edges|].
  - intros H.
    apply (extractChildren_count (extractMediaRecursive env) folderName postName edges)
      in H; [lia|].
    eapply List.Forall_impl; [|exact IH]. cbn. intros child Hc name w0 m w0' Hm.
    eapply (Hc folderName). exact Hm.
  - unfold extractLeaf. unfold bind at 1.
    destruct (extractVideo env item folderName postName 0 w) as [[c|e] w1] eqn:Ev;
      [|discriminate].
    unfold bind at 1.
    destruct (extractImage env item folderName postName c w1) as [[c'|e] w2] eqn:Ei;
      [|discriminate].
    cbn [ret]. intros [= <- _].
    apply extractVideo_count in Ev. apply extractImage_count in Ei. lia.
Qed.

Lemma extractMediaRecursive_count_bounds_witness :
  0 <= 2 <= 2 * leaves two_images.
Proof.
  apply (extractMediaRecursive_count_bounds (missing_on_server "https://cdn/1.jpg")
           two_images "out" "post" empty_world
           (snd (extractMediaRecursive (missing_on_server "https://cdn/1.jpg")
                   two_images "out" "post" empty_world)) 2).
  vm_compute. reflexivity.
Defined.

(** *** Properties *)

Ltac skip_with_log env msg w :=
  let w' := fresh "w" in
  let E := fresh "E" in
  let U := fresh "U" in
  destruct (logDebug_run env msg w) as (w' & E & U);
  apply unchanged_same in U;
  rewrite (bind_ok _ _ _ _ _ E); cbn [ret].

(** X20: [filterAndSaveMedia] returns [true] only after writing the buffer of
    the resource, and nothing else, under the folder, with a name of at
    most 128 bytes; the buffer is then not smaller than the threshold, the
    content type is not ["image/png"], and for a content type that starts
    with ["image/"] the two dimensions are known and neither is below
    161. *)
Theorem filterAndSaveMedia_saved (env : Env) (lib : Libraries) (folderName : string)
    (resource : Resource) (threshold : number) (w w' : World) :
  filterAndSaveMedia env lib folderName resource threshold w = (Ok true, w') ->
  lt (Num (Z.of_nat (length (buf resource)))) threshold = false /\
  ctype resource <> "image/png" /\
  (startsWith (ctype resource) "image/" = true ->
   exists width height,
     sizeOf lib (buf resource) = Some (width, height) /\
     lt width (Num 161) = false /\ lt height (Num 161) = false) /\
  exists pathname,
    pathnameOf lib (url resource) = Some pathname /\
    utf8_length (savedName lib pathname resource) <= 128 /\
    fs w' = <[path_join env folderName (savedName lib pathname resource) := buf resource]> (fs w) /\
    requests w' = requests w /\ commands w' = commands w.
Proof.
  unfold filterAndSaveMedia.
  destruct (lt _ threshold) eqn:Hsmall.
  { skip_with_log env "Resource below threshold, skipping:" w. discriminate. }
  destruct (pathnameOf lib (url resource)) as [pathname|]; [|discriminate].
  unfold bind at 1. cbn [ret].
  destruct (Z.gtb_spec (utf8_length (savedName lib pathname resource)) 128) as [Hlong|Hname].
  { skip_with_log env "Filename too long, skipping:" w. discriminate. }
  assert (Hsave : forall wx,
            (let* _ := mkdirSync folderName in
             let* _ := writeFileSync (path_join env folderName (savedName lib pathname resource))
                         (buf resource) in
             let* _ := console_log "Saved file =>" in
             ret true) wx = (Ok true, w') ->
            fs w' = <[path_join env folderName (savedName lib pathname resource) := buf resource]> (fs wx)
            /\ requests w' = requests wx /\ commands w' = commands wx).
  { intros wx. unfold bind, mkdirSync, writeFileSync, console_log, ret.
    intros [= <-]. repeat split. }
  destruct (startsWith (ctype resource) "image/") eqn:Himage.
  - destruct (String.eqb_spec (ctype resource) "image/png") as [Hpng|Hpng].
    { skip_with_log env "Skipping PNG" w. discriminate. }
    destruct (sizeOf lib (buf resource)) as [[width height]|]; [|discriminate].
    destruct (lt width (Num 161)) eqn:Hw; cbn [orb].
    { skip_with_log env "Image dimension too small, skipping:" w. discriminate. }
    destruct (lt height (Num 161)) eqn:Hh.
    { skip_with_log env "Image dimension too small, skipping:" w. discriminate. }
    intros H. apply Hsave in H. repeat split; eauto 10.
  - intros H. apply Hsave in H. repeat split; eauto 10.
    + intros Hpng. rewrite Hpng in Himage. discriminate Himage.
    + discriminate.
Qed.

(** X21: Whenever [filterAndSaveMedia] does not return [true], no file has
    been written.  It returns [false] for every resource smaller than the
    threshold, and never returns [true] for the content type
    ["image/png"]; it sends no request and runs no command. *)
Theorem filterAndSaveMedia_skipped (env : Env) (lib : Libraries) (folderName : string)
    (resource : Resource) (threshold : number) (w : World) :
  exists res w',
    filterAndSaveMedia env lib folderName resource threshold w = (res, w') /\
    requests w' = requests w /\ commands w' = commands w /\
    (res <> Ok true -> fs w' = fs w) /\
    (lt (Num (Z.of_nat (length (buf resource)))) threshold = true -> res = Ok false) /\
    (ctype resource = "image/png" -> res <> Ok true).
Proof.
  unfold filterAndSaveMedia.
  destruct (lt _ threshold) eqn:Hsmall.
  { skip_with_log env "Resource below threshold, skipping:" w.
    destruct U as (R & F & C). eexists _, _. split; [reflexivity|].
    repeat split; auto; discriminate. }
  destruct (pathnameOf lib (url resource)) as [pathname|].
  2:{ unfold bind, throw. eexists _, _. split; [reflexivity|].
      repeat split; auto; discriminate. }
  unfold bind at 1. cbn [ret].
  destruct (utf8_length (savedName lib pathname resource) >? 128).
  { skip_with_log env "Filename too long, skipping:" w.
    destruct U as (R & F & C). eexists _, _. split; [reflexivity|].
    repeat split; auto; discriminate. }
  assert (Hsave : forall wx,
            (let* _ := mkdirSync folderName in
             let* _ := writeFileSync (path_join env folderName (savedName lib pathname resource))
                         (buf resource) in
             let* _ := console_log "Saved file =>" in
             ret true) wx
            = (Ok true,
               add_console "Saved file =>"
                 (set_fs (<[path_join env folderName (savedName lib pathname resource)
                            := buf resource]> (fs wx)) wx))).
  { intros wx. reflexivity. }
  destruct (startsWith (ctype resource) "image/") eqn:Himage.
  - destruct (String.eqb_spec (ctype resource) "image/png") as [Hpng|Hpng].
    { skip_with_log env "Skipping PNG" w.
      destruct U as (R & F & C). eexists _, _. split; [reflexivity|].
      repeat split; auto; discriminate. }
    destruct (sizeOf lib (buf resource)) as [[width height]|].
    2:{ eexists _, _. split; [reflexivity|]. repeat split; auto; discriminate. }
    destruct (lt width (Num 161) || lt height (Num 161)).
    { skip_with_log env "Image dimension too small, skipping:" w.
      destruct U as (R & F & C). eexists _, _. split; [reflexivity|].
      repeat split; auto; discriminate. }
    rewrite Hsave. eexists _, _. split; [reflexivity|].
    repeat split; auto; try discriminate; congruence.
  - rewrite Hsave. eexists _, _. split; [reflexivity|].
    repeat split; auto; try discriminate; try congruence.
    intros Hpng. rewrite Hpng in Himage. discriminate Himage.
Qed.

Lemma filterAndSaveMedia_saved_witness :
  exists pathname,
    pathnameOf jpeg_libraries (url jpeg_resource) = Some pathname /\
    savedName jpeg_libraries pathname jpeg_resource = "pic.jpeg" /\
    fs (snd (filterAndSaveMedia always_ok jpeg_libraries "out" jpeg_resource (Num 2)
               empty_world))
    = <["out/pic.jpeg" := [Byte.x01; Byte.x02]]> ∅.
Proof.
  destruct (filterAndSaveMedia_saved always_ok jpeg_libraries "out" jpeg_resource (Num 2)
              empty_world
              (snd (filterAndSaveMedia always_ok jpeg_libraries "out" jpeg_resource (Num 2)
                      empty_world)) eq_refl)
    as (_ & _ & _ & pathname & Hpath & _ & Hfs & _).
  exists pathname. split; [exact Hpath|].
  injection Hpath as <-. split; [reflexivity | exact Hfs].
Defined.

Lemma filterAndSaveMedia_skipped_witness :
  exists w',
    filterAndSaveMedia always_ok jpeg_libraries "out" jpeg_resource (Num 3) empty_world
    = (Ok false, w') /\ fs w' = ∅.
Proof.
  destruct (filterAndSaveMedia_skipped always_ok jpeg_libraries "out" jpeg_resource (Num 3)
              empty_world) as (res & w' & Erun & _ & _ & Hfs & Hsmall & _).
  rewrite (Hsmall eq_refl) in Erun, Hfs.
  exists w'. split; [exact Erun|]. apply Hfs. discriminate.
Defined.

(** ** More on remuxing, assembly and ranking *)

(** X22: [mergeDashVideoAudio] leaves every file other than the two temporary
    ones as the multiplexer left it, the output file in particular, and
    sends no request. *)
Theorem mergeDashVideoAudio_other_files (env : Env) (videoBuf audioBuf : Buffer)
    (outPath : string) (w : World) :
  exists w',
    mergeDashVideoAudio env videoBuf audioBuf outPath w = (Ok tt, w') /\
    requests w' = requests w /\
    (forall path, path <> temp_video -> path <> temp_audio ->
       fs w' !! path = files_after_ffmpeg env videoBuf audioBuf outPath w !! path).
Proof.
  eexists. split; [apply mergeDashVideoAudio_run|]. cbn [fs requests].
  split; [reflexivity|]. intros path Hv Ha.
  rewrite lookup_delete_ne by congruence. now rewrite lookup_delete_ne by congruence.
Qed.

Lemma mergeDashVideoAudio_other_files_witness :
  fs (snd (mergeDashVideoAudio (manifest_server None []) [Byte.x01] [Byte.x02] "final.mp4"
             empty_world)) !! "final.mp4"
  = Some [Byte.x01; Byte.x02].
Proof.
  destruct (mergeDashVideoAudio_other_files (manifest_server None []) [Byte.x01] [Byte.x02]
              "final.mp4" empty_world) as (w' & Erun & _ & Hfiles).
  rewrite Erun. cbn [snd]. rewrite Hfiles by discriminate. reflexivity.
Defined.

(** X23: When [downloadDashRepresentation] returns a buffer, it is the
    concatenation, in the order of the requests, of the bodies received
    for the planned ranges, the chunk of the initialization range first;
    one request was sent for each planned range. *)
Theorem downloadDashRepresentation_concatenates (env : Env)
    (repr : DashRepresentation) (url : string) (segBase : DashSegmentBase)
    (init : DashInitialization) (w w' : World) (buffer : Buffer) :
  fetchable repr url segBase init ->
  downloadDashRepresentation env repr w = (Ok buffer, w') ->
  exists initChunk chunks,
    fetchResult env url (initRangeOf init) = Ok initChunk /\
    Forall2 (fun r chunk => fetchResult env url r = Ok chunk)
            (plannedRanges repr segBase init) (initChunk :: chunks) /\
    buffer = initChunk ++ concat chunks /\
    requests w' = requests w ++ map (rangeRequest url) (plannedRanges repr segBase init).
Proof.
  intros (Hurl & Hsb & Hinit) Hrun.
  destruct (downloadDashRepresentation_run env repr url segBase init w Hurl Hsb Hinit)
    as (w1 & E1 & R1 & _ & _).
  rewrite Hrun in E1.
  destruct (fst (fetchRanges env url (plannedRanges repr segBase init)))
    as [bufs|e] eqn:Hfetch; [|discriminate].
  cbn [result_map] in E1. injection E1 as -> <-.
  destruct (fetchRanges_ok _ _ _ _ Hfetch) as [Hlog Hall].
  rewrite Hlog in R1.
  unfold plannedRanges in Hall. inversion Hall as [|r chunk rs chunks' Hr Hrest]; subst.
  exists chunk, chunks'. repeat split; auto.
Qed.

Lemma downloadDashRepresentation_concatenates_witness :
  exists initChunk chunks,
    fetchResult range_server "u" (Num 0, Num 9) = Ok initChunk /\
    fst (downloadDashRepresentation range_server
           (repr_with_ranges "u" "0-9" None (Some "10-19") (Some "20-24") None) empty_world)
    = Ok (initChunk ++ concat chunks).
Proof.
  destruct (downloadDashRepresentation_concatenates range_server
              (repr_with_ranges "u" "0-9" None (Some "10-19") (Some "20-24") None) "u"
              (mkSegmentBase (Some "10-19") (Some "20-24") None [mkInit "0-9"])
              (mkInit "0-9") empty_world
              (snd (downloadDashRepresentation range_server
                      (repr_with_ranges "u" "0-9" None (Some "10-19") (Some "20-24") None)
                      empty_world))
              (zeros 25) (conj eq_refl (conj eq_refl eq_refl)) eq_refl)
    as (initChunk & chunks & Hinit & _ & Hbuf & _).
  exists initChunk, chunks. split; [exact Hinit|]. rewrite <- Hbuf. reflexivity.
Defined.

Lemma insert_sorted_permutation {A : Type} (cmp : A -> A -> number) (x : A) (l : list A) :
  Permutation (x :: l) (insert_sorted cmp x l).
Proof.
  induction l as [|y l IH]; [reflexivity|]. cbn [insert_sorted].
  destruct (comes_before cmp y x); [|reflexivity].
  rewrite perm_swap. now constructor.
Qed.

(** X24: The ranking step of [downloadBestQualityDash] only reorders the
    representations, whatever their bandwidth attributes; when every
    attribute is missing or starts with an integer, the bandwidths of the
    result never increase along the array. *)
Theorem sort_by_bandwidth (reprs : list DashRepresentation) :
  Permutation reprs (sort bandwidthCompare reprs) /\
  (Forall parseable reprs -> descending (sort bandwidthCompare reprs)).
Proof.
  split; [|apply descending_sort].
  induction reprs as [|r reprs IH]; [reflexivity|]. cbn [sort].
  rewrite <- insert_sorted_permutation. now constructor.
Qed.

Lemma sort_by_bandwidth_witness :
  descending (sort bandwidthCompare
                [repr_with_bandwidth "a" (Some "500"); repr_with_bandwidth "b" None;
                 repr_with_bandwidth "c" (Some "900")]).
Proof.
  apply (proj2 (sort_by_bandwidth _)). repeat constructor; discriminate.
Defined.

Lemma pickBestRepresentation_none (reprs : list DashRepresentation) :
  pickBestRepresentation reprs = None <-> reprs = [].
Proof.
  unfold pickBestRepresentation. split; [|now intros ->].
  destruct reprs as [|r reprs]; [reflexivity|].
  cbn [sort]. now rewrite first_insert_sorted.
Qed.

(** X25: When the video set or the audio set that was found holds no
    representation, [downloadBestQualityDash] fails with a [TypeError]
    before anything is requested, written or run. *)
Theorem downloadBestQualityDash_no_representation (env : Env)
    (mpdXml folderName postName : string) (mpd : DashMPD) (period : DashPeriod)
    (sets : list DashAdaptationSet) (videoSet audioSet : DashAdaptationSet) (w : World) :
  parseStringPromise env mpdXml = Some mpd ->
  first (Period mpd) = Some period ->
  AdaptationSet period = Some sets ->
  findVideoAdaptationSet sets = Ok (Some videoSet) ->
  findAudioAdaptationSet sets = Ok (Some audioSet) ->
  asArray (Representation videoSet) = [] \/ asArray (Representation audioSet) = [] ->
  exists w',
    downloadBestQualityDash env mpdXml folderName postName w = (Throw TypeError, w') /\
    requests w' = requests w /\ fs w' = fs w /\ commands w' = commands w.
Proof.
  intros Hparse Hperiod Hsets Hvideo Haudio Hempty.
  unfold downloadBestQualityDash.
  destruct (logDebug_run env "[downloadBestQualityDash] Parsing MPD XML" w)
    as (w0 & E0 & U0).
  apply unchanged_same in U0 as (R0 & F0 & C0).
  rewrite (bind_ok _ _ _ _ _ E0). rewrite Hparse.
  unfold bind at 1. cbn [ret]. rewrite Hperiod.
  unfold bind at 1. cbn [deref ret]. rewrite Hsets, Hvideo, Haudio.
  unfold bind at 1. cbn [lift]. unfold bind at 1. cbn [lift].
  destruct (pickBestRepresentation (asArray (Representation videoSet)))
    as [bestVideo|] eqn:Ev.
  - destruct Hempty as [Hempty|Hempty].
    { apply pickBestRepresentation_none in Hempty. congruence. }
    apply pickBestRepresentation_none in Hempty. rewrite Hempty.
    unfold bind, deref, ret, throw, console_log. eexists. split; [reflexivity|].
    cbn. auto.
  - unfold bind, deref, throw. eexists. split; [reflexivity|]. auto.
Qed.

Lemma downloadBestQualityDash_no_representation_witness :
  exists w',
    downloadBestQualityDash
      (manifest_server
         (Some (mkMPD [mkPeriod (Some [set_tagged (Some "video"); set_tagged (Some "audio")])]))
         [])
      "<MPD/>" "out" "post" empty_world
    = (Throw TypeError, w') /\
    requests w' = requests empty_world /\ fs w' = fs empty_world /\
    commands w' = commands empty_world.
Proof.
  apply (downloadBestQualityDash_no_representation _ _ _ _
           (mkMPD [mkPeriod (Some [set_tagged (Some "video"); set_tagged (Some "audio")])])
           (mkPeriod (Some [set_tagged (Some "video"); set_tagged (Some "audio")]))
           [set_tagged (Some "video"); set_tagged (Some "audio")]
           (set_tagged (Some "video")) (set_tagged (Some "audio")));
    try reflexivity.
  left. reflexivity.
Defined.

(** *** The two versions compared *)

Lemma legacy_downloadSegRanges_well_formed (env : Env) (baseURL : option string)
    (segRanges : list string) :
  Forall (fun sr => is_Some (parseByteRange sr)) segRanges ->
  forall chunks w,
    GetInsta.downloadSegRanges env baseURL segRanges chunks w
    = downloadSegRanges env baseURL segRanges chunks w.
Proof.
  induction 1 as [|sr rest [[s e] Hsr] _ IH]; intros chunks w; [reflexivity|].
  cbn [GetInsta.downloadSegRanges downloadSegRanges]. rewrite Hsr.
  unfold bind. destruct (logDebug env _ w) as [[[]|err] w0]; [|reflexivity].
  destruct (downloadRange env baseURL (Some s) (Some e) w0) as [[segBuf|err] w1];
    [apply IH | reflexivity].
Qed.

(** X26: Where every prefetch range that is collected parses, or the total
    length is declared, the [downloadDashRepresentation] of [get_insta.js]
    behaves exactly as the one of [get.ts]: same result, same requests. *)
Theorem legacy_downloadDashRepresentation_agrees (env : Env)
    (repr : DashRepresentation) (w : World) :
  (forall segBase,
     first (SegmentBase repr) = Some segBase ->
     gt (totalLenOf repr) (Num 0) = true \/
     Forall (fun sr => is_Some (parseByteRange sr)) (collectSegRanges segBase)) ->
  GetInsta.downloadDashRepresentation env repr w = downloadDashRepresentation env repr w.
Proof.
  intros Hwf.
  unfold GetInsta.downloadDashRepresentation, downloadDashRepresentation.
  fold (totalLenOf repr).
  unfold bind at 1. symmetry. unfold bind at 1. symmetry.
  destruct (logDebug env _ w) as [[[]|err] w0]; [|reflexivity].
  destruct (first (SegmentBase repr)) as [segBase|]; [|reflexivity].
  specialize (Hwf segBase eq_refl).
  unfold bind at 1. symmetry. unfold bind at 1. symmetry. cbn [deref ret].
  destruct (first (Initialization segBase)) as [init|]; [|reflexivity].
  unfold bind at 1. symmetry. unfold bind at 1. symmetry. cbn [deref ret].
  unfold bind at 1. symmetry. unfold bind at 1. symmetry.
  destruct (logDebug env _ w0) as [[[]|err] w1]; [|reflexivity].
  unfold bind at 1. symmetry. unfold bind at 1. symmetry.
  destruct (downloadRange env _ _ _ w1) as [[initBuf|err] w2]; [|reflexivity].
  destruct (gt (totalLenOf repr) (Num 0)); [reflexivity|].
  destruct Hwf as [Hwf|Hwf]; [discriminate|].
  unfold bind at 1. symmetry. unfold bind at 1. symmetry.
  now rewrite legacy_downloadSegRanges_well_formed.
Qed.

Lemma legacy_downloadDashRepresentation_agrees_witness :
  GetInsta.downloadDashRepresentation range_server
    (repr_with_ranges "u" "0-9" None (Some "10-19") None (Some "20-29")) empty_world
  = downloadDashRepresentation range_server
      (repr_with_ranges "u" "0-9" None (Some "10-19") None (Some "20-29")) empty_world.
Proof.
  apply legacy_downloadDashRepresentation_agrees.
  intros segBase [= <-]. right. repeat constructor; eexists; reflexivity.
Defined.

Lemma legacy_downloadSegRanges_malformed (env : Env) (url bad : string)
    (pre post : list string) :
  always_answers env ->
  Forall (fun sr => is_Some (parseByteRange sr)) pre ->
  parseByteRange bad = None ->
  forall chunks w,
  exists w',
    GetInsta.downloadSegRanges env (Some url) (pre ++ bad :: post) chunks w
    = (Throw TypeError, w') /\
    unchanged_but_requests (map (rangeRequest url) (omap parseByteRange pre)) w w'.
Proof.
  intros Hnet Hpre Hbad.
  induction Hpre as [|sr pre [[s e] Hsr] _ IH]; intros chunks w.
  - cbn [app GetInsta.downloadSegRanges]. rewrite Hbad.
    exists w. split; [reflexivity | apply unchanged_refl].
  - cbn [app GetInsta.downloadSegRanges omap list_omap map]. rewrite Hsr.
    destruct (logDebug_run env "[downloadDashRepresentation] Download =>" w)
      as (w0 & E0 & U0).
    rewrite (bind_ok _ _ _ _ _ E0).
    destruct (downloadRange_run env url s e w0) as (w1 & E1 & U1).
    destruct (Hnet (mkRequest url (Some (s, e)))) as (resp & Hresp & Hok).
    unfold fetchResult in E1. rewrite Hresp, Hok in E1.
    rewrite (bind_ok _ _ _ _ _ E1).
    destruct (IH (chunks ++ [body resp]) w1) as (w2 & E2 & U2).
    exists w2. split; [exact E2|]. cbn [map].
    apply (unchanged_trans [] _ w w0 w2 U0).
    apply (unchanged_trans [_] _ w0 w1 w2 U1 U2).
Qed.

(** X27: Where a collected prefetch range does not parse, the two versions
    part: against a server that answers every request, the
    [downloadDashRepresentation] of [get_insta.js] fetches the
    initialization range and the ranges collected before the malformed
    one, then fails with a [TypeError]; the one of [get.ts] skips the
    malformed range and returns a buffer. *)
Theorem legacy_downloadDashRepresentation_malformed (env : Env)
    (repr : DashRepresentation) (url bad : string) (segBase : DashSegmentBase)
    (init : DashInitialization) (pre post : list string) (w : World) :
  fetchable repr url segBase init ->
  gt (totalLenOf repr) (Num 0) = false ->
  collectSegRanges segBase = pre ++ bad :: post ->
  Forall (fun sr => is_Some (parseByteRange sr)) pre ->
  parseByteRange bad = None ->
  always_answers env ->
  (exists w',
     GetInsta.downloadDashRepresentation env repr w = (Throw TypeError, w') /\
     requests w' = requests w ++ rangeRequest url (initRangeOf init)
                                 :: map (rangeRequest url) (omap parseByteRange pre)) /\
  (exists buffer w', downloadDashRepresentation env repr w = (Ok buffer, w')).
Proof.
  intros (Hurl & Hsb & Hinit) Hgt Hcollect Hpre Hbad Hnet. split.
  - unfold GetInsta.downloadDashRepresentation. fold (totalLenOf repr).
    rewrite Hurl, Hsb.
    destruct (logDebug_run env "[downloadDashRepresentation] Representation ID=" w)
      as (w0 & E0 & U0).
    rewrite (bind_ok _ _ _ _ _ E0).
    unfold bind at 1. cbn [deref ret]. rewrite Hinit.
    unfold bind at 1. cbn [deref ret]. fold (initRangeOf init).
    destruct (logDebug_run env "[downloadDashRepresentation] initRange=" w0)
      as (w1 & E1 & U1).
    rewrite (bind_ok _ _ _ _ _ E1).
    destruct (downloadRange_run env url (fst (initRangeOf init)) (snd (initRangeOf init)) w1)
      as (w2 & E2 & U2).
    rewrite <- surjective_pairing in E2, U2.
    destruct (Hnet (mkRequest url (Some (initRangeOf init)))) as (resp & Hresp & Hok).
    unfold fetchResult in E2. rewrite Hresp, Hok in E2.
    rewrite (bind_ok _ _ _ _ _ E2). rewrite Hgt, Hcollect.
    destruct (legacy_downloadSegRanges_malformed env url bad pre post Hnet Hpre Hbad
                [body resp] w2) as (w3 & E3 & U3).
    rewrite (bind_throw _ _ _ _ _ E3). exists w3. split; [reflexivity|].
    pose proof (unchanged_trans _ _ _ _ _
                  (unchanged_trans _ _ _ _ _ (unchanged_trans _ _ _ _ _ U0 U1) U2) U3)
      as (R & _). exact R.
  - destruct (downloadDashRepresentation_run env repr url segBase init w Hurl Hsb Hinit)
      as (w' & Erun & _).
    destruct (fetchRanges_all_ok env url (plannedRanges repr segBase init)) as [bufs Hbufs].
    { apply List.Forall_forall. intros r _. unfold fetchResult.
      destruct (Hnet (mkRequest url (Some r))) as (resp & -> & ->). eauto. }
    rewrite Hbufs in Erun. eauto.
Qed.

Lemma legacy_downloadDashRepresentation_malformed_witness :
  (exists w',
     GetInsta.downloadDashRepresentation always_ok
       (repr_with_ranges "u" "0-9" None (Some "10-19") (Some "9-") None) empty_world
     = (Throw TypeError, w') /\
     requests w' = requests empty_world ++
                   rangeRequest "u" (initRangeOf (mkInit "0-9"))
                   :: map (rangeRequest "u") (omap parseByteRange ["10-19"])) /\
  (exists buffer w',
     downloadDashRepresentation always_ok
       (repr_with_ranges "u" "0-9" None (Some "10-19") (Some "9-") None) empty_world
     = (Ok buffer, w')).
Proof.
  apply (legacy_downloadDashRepresentation_malformed always_ok
           (repr_with_ranges "u" "0-9" None (Some "10-19") (Some "9-") None) "u" "9-"
           (mkSegmentBase (Some "10-19") (Some "9-") None [mkInit "0-9"])
           (mkInit "0-9") ["10-19"] [] empty_world).
  - repeat split.
  - reflexivity.
  - reflexivity.
  - repeat constructor. eexists. reflexivity.
  - reflexivity.
  - intros rq. eexists. split; reflexivity.
Defined.

(** *** Properties of the cookie file parser *)

Lemma has_char_app (c : ascii) (a b : string) :
  has_char c (a ++ b)%string = has_char c a || has_char c b.
Proof.
  induction a as [|x a IH]; [reflexivity|].
  rewrite string_app_cons. cbn [has_char]. now rewrite IH, orb_assoc.
Qed.

Lemma string_app_reassoc (a : string) (c : ascii) (y z : string) :
  (a ++ String c (y ++ z))%string = ((a ++ String c y) ++ z)%string.
Proof.
  induction a as [|x a IH]; [reflexivity|].
  now rewrite !string_app_cons, IH.
Qed.

Lemma count_char_app (c : ascii) (a b : string) :
  count_char c (a ++ b)%string = (count_char c a + count_char c b)%nat.
Proof.
  induction a as [|x a IH]; [reflexivity|].
  rewrite string_app_cons. cbn [count_char]. rewrite IH. lia.
Qed.

Lemma count_char_free (c : ascii) (s : string) :
  has_char c s = false -> count_char c s = 0%nat.
Proof.
  induction s as [|x s IH]; [reflexivity|]. cbn [has_char count_char].
  intros [-> H]%orb_false_iff. now rewrite IH.
Qed.

Lemma split_free (sep : ascii) (s : string) :
  has_char sep s = false -> split sep s = [s].
Proof.
  induction s as [|x s IH]; [reflexivity|]. cbn [has_char split].
  intros [-> H]%orb_false_iff. now rewrite IH.
Qed.

Lemma split_app (sep : ascii) (a b : string) :
  has_char sep a = false ->
  split sep (a ++ String sep b)%string = a :: split sep b.
Proof.
  induction a as [|x a IH].
  - intros _. change (EmptyString ++ String sep b)%string with (String sep b).
    cbn [split]. now rewrite Ascii.eqb_refl.
  - cbn [has_char]. intros [Hx H]%orb_false_iff.
    rewrite string_app_cons. cbn [split]. now rewrite Hx, IH.
Qed.

Lemma split_length (sep : ascii) (s : string) :
  length (split sep s) = S (count_char sep s).
Proof.
  induction s as [|x s IH]; [reflexivity|]. cbn [split count_char].
  destruct (Ascii.eqb x sep).
  - cbn [length]. now rewrite IH.
  - destruct (split sep s) as [|piece pieces]; [discriminate|].
    cbn [length] in *. lia.
Qed.

Lemma trim_end_clean (s : string) : ends_clean s = true -> trim_end s = s.
Proof.
  induction s as [|c s IH]; [discriminate|].
  cbn [ends_clean trim_end]. destruct s as [|c' s].
  - cbn [trim_end]. now intros ->%negb_true_iff.
  - intros H. now rewrite (IH H).
Qed.

Lemma ends_clean_app (a b : string) :
  ends_clean b = true -> ends_clean (a ++ b)%string = true.
Proof.
  intros Hb. induction a as [|c a IH]; [exact Hb|].
  rewrite string_app_cons. cbn [ends_clean].
  destruct (a ++ b)%string; [discriminate | exact IH].
Qed.

Lemma ends_clean_cons (c : ascii) (s : string) :
  ends_clean s = true -> ends_clean (String c s) = true.
Proof. destruct s; [discriminate | auto]. Qed.

Lemma trim_end_app_space (a : string) (c : ascii) :
  is_space c = true -> trim_end (a ++ String c EmptyString)%string = trim_end a.
Proof.
  intros Hc. induction a as [|x a IH].
  - change (EmptyString ++ String c EmptyString)%string with (String c EmptyString).
    cbn [trim_end]. now rewrite Hc.
  - rewrite string_app_cons. cbn [trim_end]. now rewrite IH.
Qed.

Lemma trim_app_space (a : string) (c : ascii) :
  is_space c = true -> trim (a ++ String c EmptyString)%string = trim a.
Proof.
  intros Hc. unfold trim. induction a as [|x a IH].
  - change (EmptyString ++ String c EmptyString)%string with (String c EmptyString).
    cbn [trim_start]. now rewrite Hc.
  - rewrite string_app_cons. cbn [trim_start]. destruct (is_space x); [exact IH|].
    rewrite <- string_app_cons. now apply trim_end_app_space.
Qed.

Lemma count_char_trim_start (c : ascii) (s : string) :
  (count_char c (trim_start s) <= count_char c s)%nat.
Proof.
  induction s as [|x s IH]; [reflexivity|]. cbn [trim_start].
  destruct (is_space x); [cbn [count_char]; lia | reflexivity].
Qed.

Lemma count_char_trim_end (c : ascii) (s : string) :
  (count_char c (trim_end s) <= count_char c s)%nat.
Proof.
  induction s as [|x s IH]; [reflexivity|]. cbn [trim_end].
  destruct (trim_end s) as [|y kept].
  - destruct (is_space x); cbn [count_char] in *; lia.
  - cbn [count_char] in *. lia.
Qed.

Lemma count_char_trim (c : ascii) (s : string) :
  (count_char c (trim s) <= count_char c s)%nat.
Proof.
  unfold trim. etransitivity; [apply count_char_trim_end | apply count_char_trim_start].
Qed.

Lemma clean_fields_inv (e : CookieLine) :
  clean_fields e = true ->
  Forall (fun f => has_char tab f = false /\ has_char newline f = false) (fields e).
Proof.
  unfold clean_fields. rewrite forallb_forall, List.Forall_forall.
  intros H f Hf. specialize (H f Hf).
  apply andb_true_iff in H as [H1 H2]. now rewrite negb_true_iff in H1, H2.
Qed.

Lemma split_render (e : CookieLine) :
  clean_fields e = true -> split tab (render e) = fields e.
Proof.
  intros H%clean_fields_inv. unfold fields in *.
  repeat match goal with
         | H : Forall _ (_ :: _) |- _ => apply Forall_cons_1 in H; destruct H as [[? ?] ?]
         end; cbv beta in *.
  unfold render. rewrite !split_app by assumption. now rewrite split_free.
Qed.

Lemma render_one_line (e : CookieLine) :
  clean_fields e = true -> has_char newline (render e) = false.
Proof.
  intros H%clean_fields_inv. unfold fields in *.
  repeat match goal with
         | H : Forall _ (_ :: _) |- _ => apply Forall_cons_1 in H; destruct H as [[? ?] ?]
         end; cbv beta in *.
  unfold render.
  repeat (rewrite has_char_app; cbn [has_char];
          change (Ascii.eqb tab newline) with false; cbn [orb]).
  repeat match goal with H : has_char newline _ = false |- _ => rewrite H; clear H end.
  reflexivity.
Qed.

Lemma trim_render (e : CookieLine) :
  starts_clean (domain_field e) = true -> ends_clean (value_field e) = true ->
  trim (render e) = render e /\ truthy (Some (render e)) = true /\
  startsWith (render e) "#" = false.
Proof.
  intros Hd Hv.
  assert (Hend : ends_clean (render e) = true).
  { unfold render. repeat (apply ends_clean_app, ends_clean_cons). exact Hv. }
  revert Hend. unfold render. destruct (domain_field e) as [|c d]; [discriminate|].
  cbn [starts_clean] in Hd. apply andb_true_iff in Hd as [Hs Hh].
  rewrite negb_true_iff in Hs, Hh.
  rewrite string_app_cons. intros Hend. repeat split.
  - unfold trim. cbn [trim_start]. rewrite Hs. now apply trim_end_clean.
  - unfold startsWith. cbn [String.prefix].
    destruct (ascii_dec "#" c) as [<-|]; [discriminate | reflexivity].
Qed.

Lemma parseCookieLines_render (e : CookieLine) (rest : list string)
    (cookies : list Cookie) :
  well_formed e = true ->
  parseCookieLines (render e :: rest) cookies
  = parseCookieLines rest (cookies ++ [cookie_of e]).
Proof.
  unfold well_formed. intros [[Hc Hd]%andb_true_iff Hv]%andb_true_iff.
  destruct (trim_render e Hd Hv) as (Ht & Hne & Hhash).
  cbn [parseCookieLines]. rewrite Ht, Hne, Hhash, (split_render e Hc).
  reflexivity.
Qed.

Lemma split_cookies_txt (entries : list CookieLine) :
  Forall (fun e => well_formed e = true) entries ->
  split newline (cookies_txt entries) = map render entries ++ [EmptyString].
Proof.
  induction 1 as [|e entries He _ IH]; [reflexivity|].
  cbn [cookies_txt fold_right map app]. fold (cookies_txt entries).
  unfold well_formed in He. apply andb_true_iff in He as [[Hc _]%andb_true_iff _].
  now rewrite (split_app _ _ _ (render_one_line e Hc)), IH.
Qed.

Lemma parseCookieLines_entries (entries : list CookieLine) :
  Forall (fun e => well_formed e = true) entries ->
  forall cookies,
    parseCookieLines (map render entries ++ [EmptyString]) cookies
    = cookies ++ map cookie_of entries.
Proof.
  induction 1 as [|e entries He _ IH]; intros cookies.
  - cbn. now rewrite app_nil_r.
  - cbn [map app]. rewrite (parseCookieLines_render e _ _ He), IH.
    now rewrite <- app_assoc.
Qed.

(** X28: a cookie file written one entry per line, seven fields separated
    by tabs, where no field holds a tab or a line feed, the domain begins
    with a character that is neither white space nor [#] and the value
    ends with a character that is not white space, is read back as the
    cookies of its entries, in order; nothing else is changed. *)
Theorem loadCookiesFromFile_round_trip (env : Env) (utf8 : Buffer -> string)
    (filePath : string) (data : Buffer) (entries : list CookieLine) (w : World) :
  fs w !! filePath = Some data ->
  utf8 data = cookies_txt entries ->
  Forall (fun e => well_formed e = true) entries ->
  exists w',
    loadCookiesFromFile env utf8 filePath w = (Ok (Some (map cookie_of entries)), w') /\
    unchanged_but_requests [] w w'.
Proof.
  intros Hfile Hdata Hwf. unfold loadCookiesFromFile, try_catch.
  unfold bind at 1. unfold readFileSync at 1. rewrite Hfile, Hdata.
  rewrite (split_cookies_txt entries Hwf), (parseCookieLines_entries entries Hwf).
  destruct (logDebug_run env "[Cookies] Loaded" w) as (w' & E & U).
  rewrite (bind_ok _ _ _ _ _ E). exists w'. split; [reflexivity | exact U].
Qed.

(** X29: reading the cookie file never throws and touches neither the
    files nor the network; the result is [null] exactly when the file
    does not exist, and then one line is printed. *)
Theorem loadCookiesFromFile_never_throws (env : Env) (utf8 : Buffer -> string)
    (filePath : string) (w : World) :
  exists result w',
    loadCookiesFromFile env utf8 filePath w = (Ok result, w') /\
    unchanged_but_requests [] w w' /\
    (result = None <-> fs w !! filePath = None) /\
    (result = None -> console w' = console w ++ ["Error reading cookies file:"]).
Proof.
  unfold loadCookiesFromFile, try_catch. unfold bind at 1. unfold readFileSync at 1.
  destruct (fs w !! filePath) as [data|].
  - destruct (logDebug_run env "[Cookies] Loaded" w) as (w' & E & U).
    rewrite (bind_ok _ _ _ _ _ E). eexists _, w'. split; [reflexivity|].
    split; [exact U|]. split; [split; discriminate | discriminate].
  - eexists _, _. split; [reflexivity|]. split; [|split; [tauto|reflexivity]].
    unfold unchanged_but_requests. cbn. now rewrite app_nil_r.
Qed.

(** X30: a line whose seventh field is empty is dropped: its final tab is
    trimmed away before the line is split, which leaves six fields. *)
Theorem loadCookiesFromFile_empty_value (env : Env) (utf8 : Buffer -> string)
    (filePath : string) (data : Buffer) (e : CookieLine) (w : World) :
  fs w !! filePath = Some data ->
  utf8 data = cookies_txt [e] ->
  clean_fields e = true ->
  value_field e = EmptyString ->
  exists w',
    loadCookiesFromFile env utf8 filePath w = (Ok (Some []), w').
Proof.
  intros Hfile Hdata Hc Hv. unfold loadCookiesFromFile, try_catch.
  unfold bind at 1. unfold readFileSync at 1. rewrite Hfile, Hdata.
  cbn [cookies_txt fold_right].
  rewrite (split_app _ _ _ (render_one_line e Hc)).
  assert (Hline : parseCookieLines [render e; EmptyString] [] = []).
  { cbn [parseCookieLines].
    assert (Hparts : (7 <=? length (split tab (trim (render e))))%nat = false).
    { apply Nat.leb_gt. rewrite split_length.
      assert (count_char tab (trim (render e)) <= 5)%nat; [|lia].
      apply clean_fields_inv in Hc. unfold fields in Hc.
      repeat match goal with
             | H : Forall _ (_ :: _) |- _ => apply Forall_cons_1 in H; destruct H as [[? ?] ?]
             end; cbv beta in *.
      unfold render. rewrite Hv.
      rewrite !(string_app_reassoc _ _ _ (String tab EmptyString)).
      rewrite trim_app_space by reflexivity.
      etransitivity; [apply count_char_trim|].
      repeat (rewrite count_char_app; cbn [count_char];
              change (Ascii.eqb tab tab) with true).
      rewrite !count_char_free by assumption. cbn. lia. }
    rewrite Hparts. cbn.
    now destruct (_ || _). }
  cbn [split]. rewrite Hline.
  destruct (logDebug_run env "[Cookies] Loaded" w) as (w' & E & _).
  rewrite (bind_ok _ _ _ _ _ E). now exists w'.
Qed.

Lemma parseOutputFolder_safe_witness :
  parseOutputFolder (fun _ => None) "not a url" <> EmptyString /\
  all_safe (parseOutputFolder (fun _ => None) "not a url") = true /\
  ((fun _ : string => @None string) "not a url" = None ->
   parseOutputFolder (fun _ => None) "not a url" = "output").
Proof.
  exact (parseOutputFolder_safe (fun _ => None) "not a url").
Defined.

Lemma loadCookiesFromFile_round_trip_witness :
  exists w',
    loadCookiesFromFile always_ok string_of_list_byte "cookies.txt"
      (world_with_file "cookies.txt" (cookies_txt sample_entries))
    = (Ok (Some [mkCookie "sessionid" "abc123" (Some ".instagram.com") (Some "/")
                          (Some true) (Some true) (Some Lax);
                 mkCookie "csrftoken" "x y" (Some "instagram.com") (Some "/")
                          (Some false) (Some false) (Some Lax)]), w') /\
    unchanged_but_requests [] (world_with_file "cookies.txt" (cookies_txt sample_entries)) w'.
Proof.
  apply (loadCookiesFromFile_round_trip always_ok string_of_list_byte "cookies.txt"
           (list_byte_of_string (cookies_txt sample_entries)) sample_entries).
  - apply lookup_singleton_eq.
  - apply string_of_list_byte_of_string.
  - repeat constructor.
Defined.

Lemma loadCookiesFromFile_empty_value_witness :
  exists w',
    loadCookiesFromFile always_ok string_of_list_byte "cookies.txt"
      (world_with_file "cookies.txt"
         (cookies_txt [mkCookieLine ".instagram.com" "TRUE" "/" "TRUE" "0" "sessionid"
                                    EmptyString]))
    = (Ok (Some []), w').
Proof.
  apply (loadCookiesFromFile_empty_value always_ok string_of_list_byte "cookies.txt"
           (list_byte_of_string
              (cookies_txt [mkCookieLine ".instagram.com" "TRUE" "/" "TRUE" "0" "sessionid"
                                         EmptyString]))
           (mkCookieLine ".instagram.com" "TRUE" "/" "TRUE" "0" "sessionid" EmptyString)).
  - apply lookup_singleton_eq.
  - apply string_of_list_byte_of_string.
  - reflexivity.
  - reflexivity.
Defined.
